(** * OpenRecord front end: review store, highlight segmenter, analysis
      orchestrator and redaction applier

    A shallow embedding of the TypeScript sources

    - [frontend/src/store/useStore.ts] (the zustand/immer review store),
    - [frontend/src/App.tsx] ([renderTextWithHighlights]),
    - [frontend/src/pages/DocumentReview.tsx] ([useDocumentAnalysis],
      [handleApplyRedactions]),
    - [frontend/src/pages/DocumentUpload.tsx] ([handleAnalyze]),
    - [frontend/src/services/api.ts] (the react-query mutation hooks),

    followed by the properties of the specification that concern them.

    Conventions of the embedding.

    - A JavaScript [number] is an IEEE-754 binary64 value: Rocq's primitive
      [float].  Array indices, string positions and [Date.now()] readings are
      integers and are kept in [Z], [nat] or [N].
    - A JavaScript string used for searching and slicing is a list of UTF-16
      code units; the segmenter is generic in the type of code units, since
      it only ever compares them.  Identifiers, file names and messages are
      Rocq [string]s.
    - An optional property ([p?: T]) is an [option T]; [None] is the absent
      property.
    - An immer producer [set(state => { ... })] is a function from the old
      state to the new one.
    - [Date.now()] and [Math.random()] are read from explicit oracles, indexed
      by the position of the array element for which they are called.
    - An [async] function is cut at its single [await]: the part before it,
      and the part that runs once the promise has settled.  Toasts, network
      requests, store actions and downloads are recorded in an effect trace;
      [console.log]/[console.error] calls are not recorded. *)

From Stdlib Require Import ZArith Lia String Ascii DecimalString DecimalN PrimFloat.
From Stdlib Require Strings.Byte.
From stdpp Require Import base option list sorting gmap strings.

#[local] Set Warnings "-inexact-float".
#[local] Open Scope string_scope.
#[local] Open Scope list_scope.
#[local] Open Scope Z_scope.

(** ** JavaScript primitives *)

(** [ToBoolean] on a number: [+0], [-0] and [NaN] are falsy. *)
Definition number_truthy (x : float) : bool :=
  negb (PrimFloat.eqb x 0%float || PrimFloat.is_nan x).

(** [ToBoolean] on a string: only the empty string is falsy. *)
Definition string_truthy (s : string) : bool :=
  negb (String.eqb s "").

(** [x || d] where [x] is an optional number property. *)
Definition number_or (x : option float) (d : float) : float :=
  match x with
  | Some v => if number_truthy v then v else d
  | None => d
  end.

(** [x || d] where [x] is an optional string property. *)
Definition string_or (x : option string) (d : string) : string :=
  match x with
  | Some v => if string_truthy v then v else d
  | None => d
  end.

(** [x || d] where [x] is an integer (an array index or [-1]) or [undefined]. *)
Definition index_or (x : option Z) (d : Z) : Z :=
  match x with
  | Some v => if v =? 0 then d else v
  | None => d
  end.

(** Template-literal rendering of a non-negative integer. *)
Definition decimal (n : N) : string :=
  NilEmpty.string_of_uint (N.to_uint n).

(** Object references: arrays of objects hold references, and
    [Array.prototype.indexOf] compares them by identity. *)
Definition loc := nat.

(** [arr.indexOf(r)] on an array of object references. *)
Definition array_indexOf (arr : list loc) (r : loc) : Z :=
  match list_find (λ x, x = r) arr with
  | Some (i, _) => Z.of_nat i
  | None => -1
  end.

(** Stable sort with a comparator, as [Array.prototype.sort] (ES2019):
    [x] goes before the first element it does not compare greater than. *)
Fixpoint insert_sorted {A} (compareFn : A → A → Z) (x : A) (l : list A) : list A :=
  match l with
  | [] => [x]
  | y :: l' =>
      if compareFn x y <=? 0 then x :: l else y :: insert_sorted compareFn x l'
  end.

Definition array_sort {A} (compareFn : A → A → Z) (l : list A) : list A :=
  foldr (insert_sorted compareFn) [] l.

(** *** Strings as sequences of code units *)

Section JsString.
Context {code_unit : Type} `{!EqDecision code_unit}.

(** [search] occurs at the very start of [t]. *)
Fixpoint startsWith (search t : list code_unit) : bool :=
  match search, t with
  | [], _ => true
  | _ :: _, [] => false
  | c :: search', d :: t' => bool_decide (c = d) && startsWith search' t'
  end.

(** First position at which [search] occurs in [t], where [t] is the part of
    the text that begins at absolute position [k]. *)
Fixpoint search_from (search t : list code_unit) (k : nat) : option nat :=
  if startsWith search t then Some k
  else match t with
       | [] => None
       | _ :: t' => search_from search t' (S k)
       end.

(** [text.indexOf(search, position)]: the position is clamped to
    [0 .. text.length]; the result is the smallest index at or after it where
    [search] occurs, or [-1]. *)
Definition indexOf (text search : list code_unit) (position : Z) : Z :=
  let start := Z.to_nat (Z.min (Z.max position 0) (Z.of_nat (length text))) in
  match search_from search (drop start text) start with
  | Some k => Z.of_nat k
  | None => -1
  end.

(** [text.includes(search)]. *)
Definition includes (text search : list code_unit) : bool :=
  negb (indexOf text search 0 =? -1).

(** A relative index of [slice]: negative counts from the end, everything is
    clamped to [0 .. len]. *)
Definition relative_index (len i : Z) : Z :=
  if i <? 0 then Z.max (len + i) 0 else Z.min i len.

(** [text.slice(start, end)]. *)
Definition slice (text : list code_unit) (start end_ : Z) : list code_unit :=
  let len := Z.of_nat (length text) in
  let from := relative_index len start in
  let to := relative_index len end_ in
  take (Z.to_nat (to - from)) (drop (Z.to_nat from) text).

(** [text.slice(start)]. *)
Definition slice_from (text : list code_unit) (start : Z) : list code_unit :=
  slice text start (Z.of_nat (length text)).

End JsString.

(** ** Highlight segmenter ([App.tsx]) *)

Module RedactionItem.
Record t {code_unit : Type} := mk {
  page : float;
  x1 : float;
  y1 : float;
  x2 : float;
  y2 : float;
  category : string;
  text : list code_unit;
  confidence : float
}.
Arguments t : clear implicits.
Arguments mk {code_unit}.
End RedactionItem.

Module DocumentAnalysis.
Record t := mk {
  document_id : string;
  total_pages : float;
  redactions : list loc;
  status : string
}.
End DocumentAnalysis.

(** An element of [sortedRedactions]: [{ ...r, globalIndex }]. *)
Module IndexedItem.
Record t {code_unit : Type} := mk {
  item : RedactionItem.t code_unit;
  globalIndex : Z
}.
Arguments t : clear implicits.
Arguments mk {code_unit}.
End IndexedItem.

(** An element of [segments]. *)
Module Segment.
Record t {code_unit : Type} := mk {
  text : list code_unit;
  isRedacted : bool;
  redactionIndex : option Z
}.
Arguments t : clear implicits.
Arguments mk {code_unit}.
End Segment.

(** What [renderTextWithHighlights] returns: the plain-text [div], or the
    [div] holding one [span] per segment. *)
Inductive Rendered {code_unit : Type} :=
| PlainText (text : list code_unit)
| HighlightedText (segments : list (Segment.t code_unit)).
Arguments Rendered : clear implicits.

Section Segmenter.
Context {code_unit : Type} `{!EqDecision code_unit}.

(** The component state [analysis] and the object heap the references point
    into. *)
Variable analysis : option DocumentAnalysis.t.
Variable heap : loc → RedactionItem.t code_unit.

(** [analysis?.redactions.indexOf(r) || idx]. *)
Definition globalIndexOf (r : loc) (idx : nat) : Z :=
  index_or
    (a ← analysis; Some (array_indexOf (DocumentAnalysis.redactions a) r))
    (Z.of_nat idx).

(** [redactions.map((r, idx) => ({ ...r, globalIndex: ... }))]. *)
Definition withGlobalIndex (redactions : list loc) : list (IndexedItem.t code_unit) :=
  imap (λ idx r, IndexedItem.mk (heap r) (globalIndexOf r idx)) redactions.

Definition itemText (r : IndexedItem.t code_unit) : list code_unit :=
  RedactionItem.text (IndexedItem.item r).

(** The comparator of the sort: [text.indexOf(a.text) - text.indexOf(b.text)]. *)
Definition byFirstOccurrence (text : list code_unit)
    (a b : IndexedItem.t code_unit) : Z :=
  indexOf text (itemText a) 0 - indexOf text (itemText b) 0.

Definition sortedRedactions (text : list code_unit) (redactions : list loc)
    : list (IndexedItem.t code_unit) :=
  array_sort (byFirstOccurrence text)
    (filter (λ r, includes text (itemText r) = true) (withGlobalIndex redactions)).

(** The loop state: the [segments] array and [currentIndex]. *)
Definition LoopState : Type := list (Segment.t code_unit) * Z.

(** Body of [sortedRedactions.forEach]. *)
Definition highlightStep (text : list code_unit) (st : LoopState)
    (redaction : IndexedItem.t code_unit) : LoopState :=
  let '(segments, currentIndex) := st in
  let startIndex := indexOf text (itemText redaction) currentIndex in
  if 0 <=? startIndex then
    let segments :=
      if currentIndex <? startIndex
      then segments ++ [Segment.mk (slice text currentIndex startIndex) false None]
      else segments in
    (segments ++ [Segment.mk (itemText redaction) true
                    (Some (IndexedItem.globalIndex redaction))],
     startIndex + Z.of_nat (length (itemText redaction)))
  else st.

(** The final step: the text left after the last match. *)
Definition remainingText (text : list code_unit) (st : LoopState)
    : list (Segment.t code_unit) :=
  let '(segments, currentIndex) := st in
  if currentIndex <? Z.of_nat (length text)
  then segments ++ [Segment.mk (slice_from text currentIndex) false None]
  else segments.

Definition highlightSegments (text : list code_unit) (redactions : list loc)
    : list (Segment.t code_unit) :=
  remainingText text
    (foldl (highlightStep text) ([], 0) (sortedRedactions text redactions)).

Definition renderTextWithHighlights (text : list code_unit) (redactions : list loc)
    : Rendered code_unit :=
  if bool_decide (length redactions = 0%nat) then PlainText text
  else HighlightedText (highlightSegments text redactions).

End Segmenter.

(** The segments a rendered element shows, in order: the plain-text [div] is
    one piece of plain text, the highlighted [div] has one [span] per
    segment. *)
Definition segmentsOf {code_unit : Type} (r : Rendered code_unit)
    : list (Segment.t code_unit) :=
  match r with
  | PlainText text => [Segment.mk text false None]
  | HighlightedText segments => segments
  end.

(** The texts of the segments, concatenated. *)
Definition concatSegments {code_unit : Type} (segments : list (Segment.t code_unit))
    : list code_unit :=
  concat (Segment.text <$> segments).

(** Each segment with the offset at which it starts in the rendered text. *)
Fixpoint placed {code_unit : Type} (offset : nat) (segments : list (Segment.t code_unit))
    : list (nat * Segment.t code_unit) :=
  match segments with
  | [] => []
  | s :: rest => (offset, s) :: placed (offset + length (Segment.text s)) rest
  end.

(** The character range [start, stop) of the input text covered by each
    redacted segment, with the segment. *)
Definition redactedRanges {code_unit : Type} (segments : list (Segment.t code_unit))
    : list (nat * nat * Segment.t code_unit) :=
  omap (λ p : nat * Segment.t code_unit,
          if Segment.isRedacted p.2
          then Some (p.1, (p.1 + length (Segment.text p.2))%nat, p.2)
          else None)
       (placed 0 segments).

(** The range lies inside [text] and holds exactly the segment's text. *)
Definition covers {code_unit : Type} (text : list code_unit)
    (r : nat * nat * Segment.t code_unit) : Prop :=
  (r.1.1 ≤ r.1.2 ≤ length text)%nat
  ∧ take (r.1.2 - r.1.1) (drop r.1.1 text) = Segment.text r.2.

(** The first range stops where, or before, the second one starts. *)
Definition precedes {A : Type} (r1 r2 : nat * nat * A) : Prop :=
  (r1.1.2 ≤ r2.1.1)%nat.

(** The invariant of the segmenter loop: the cursor stays inside the text and
    the segments emitted so far spell out the text before the cursor. *)
Definition loop_inv {code_unit : Type} (text : list code_unit)
    (st : list (Segment.t code_unit) * Z) : Prop :=
  0 ≤ st.2 ≤ Z.of_nat (length text)
  ∧ concatSegments st.1 = take (Z.to_nat st.2) text.

(** *** The example of the specification *)

Definition js (s : string) : list ascii := list_ascii_of_string s.

Definition item (text : string) : RedactionItem.t ascii :=
  RedactionItem.mk 0%float 0%float 0%float 0%float 0%float
    "REDACTED-N.J.S.A. 47:1A-1.1(20)" (js text) 0.5%float.

(** Object [0] is detection d1, object [1] is detection d2. *)
Definition example_heap (r : loc) : RedactionItem.t ascii :=
  match r with
  | O => item "John Smith"
  | _ => item "123-45-6789"
  end.

Definition example_analysis : DocumentAnalysis.t :=
  DocumentAnalysis.mk "doc_1" 1%float [0%nat; 1%nat] "analyzed".

Definition example_text : list ascii := js "Name: John Smith, SSN: 123-45-6789".

(** *** The same page with the detections listed in reading order

    The analysis lists the surname first (object [0]) and the given name
    second (object [1]); the list passed to the segmenter names them in the
    order in which they occur in the text. *)

Definition reading_heap (r : loc) : RedactionItem.t ascii :=
  match r with
  | O => item "Smith"
  | _ => item "John"
  end.

Definition reading_analysis : DocumentAnalysis.t :=
  DocumentAnalysis.mk "doc_1" 1%float [0%nat; 1%nat] "analyzed".

Definition reading_text : list ascii := js "John Smith".

Definition reading_redactions : list loc := [1%nat; 0%nat].

(** *** Tags of the redacted segments *)

(** A redacted segment is the one pushed for [x]: it shows the text of [x]
    and carries its [globalIndex]. *)
Definition pushedFor {code_unit : Type} (x : IndexedItem.t code_unit)
    (s : Segment.t code_unit) : Prop :=
  Segment.text s = RedactionItem.text (IndexedItem.item x)
  ∧ Segment.redactionIndex s = Some (IndexedItem.globalIndex x).

(** The tag of a redacted segment is the index, in the redaction list of the
    analysis, of a detection of the list passed in, and the segment shows that
    detection's text. *)
Definition taggedByItsDetection {code_unit : Type}
    (analysis : option DocumentAnalysis.t) (heap : loc → RedactionItem.t code_unit)
    (redactions : list loc) (s : Segment.t code_unit) : Prop :=
  Segment.isRedacted s = true →
  ∃ (a : DocumentAnalysis.t) (g : nat) (r : loc),
    analysis = Some a
    ∧ Segment.redactionIndex s = Some (Z.of_nat g)
    ∧ DocumentAnalysis.redactions a !! g = Some r
    ∧ r ∈ redactions
    ∧ RedactionItem.text (heap r) = Segment.text s.

(** ** Review store ([store/useStore.ts]) *)

Module Detection.
Record t := mk {
  text : string;
  category : string;
  confidence : float;
  page_number : float;
  start_pos : float;
  end_pos : float;
  detection_reason : string;
  pattern_name : option string;
  context : option string;
  approved : bool;
  id : string
}.

(** [{ ...detection, id: newId }] *)
Definition with_id (newId : string) (d : t) : t :=
  mk (text d) (category d) (confidence d) (page_number d) (start_pos d) (end_pos d)
     (detection_reason d) (pattern_name d) (context d) (approved d) newId.

(** [detection.approved = value] *)
Definition with_approved (value : bool) (d : t) : t :=
  mk (text d) (category d) (confidence d) (page_number d) (start_pos d) (end_pos d)
     (detection_reason d) (pattern_name d) (context d) value (id d).
End Detection.

(** [Partial<Detection>]: the keys an update object carries. *)
Module DetectionUpdates.
Record t := mk {
  text : option string;
  category : option string;
  confidence : option float;
  page_number : option float;
  start_pos : option float;
  end_pos : option float;
  detection_reason : option string;
  pattern_name : option string;
  context : option string;
  approved : option bool;
  id : option string
}.
End DetectionUpdates.

(** [Object.assign(detection, updates)]: every key present in [updates]
    overwrites the detection's value. *)
Definition assignDetection (d : Detection.t) (u : DetectionUpdates.t) : Detection.t :=
  Detection.mk
    (default (Detection.text d) (DetectionUpdates.text u))
    (default (Detection.category d) (DetectionUpdates.category u))
    (default (Detection.confidence d) (DetectionUpdates.confidence u))
    (default (Detection.page_number d) (DetectionUpdates.page_number u))
    (default (Detection.start_pos d) (DetectionUpdates.start_pos u))
    (default (Detection.end_pos d) (DetectionUpdates.end_pos u))
    (default (Detection.detection_reason d) (DetectionUpdates.detection_reason u))
    (match DetectionUpdates.pattern_name u with
     | Some v => Some v
     | None => Detection.pattern_name d
     end)
    (match DetectionUpdates.context u with
     | Some v => Some v
     | None => Detection.context d
     end)
    (default (Detection.approved d) (DetectionUpdates.approved u))
    (default (Detection.id d) (DetectionUpdates.id u)).

Module DocumentMetadata.
Record t := mk {
  page_count : float;
  content_type : option string;
  original_filename : option string
}.
End DocumentMetadata.

Module Document.
Record t := mk {
  id : string;
  filename : string;
  size : float;
  page_count : float;
  uploaded_at : string;
  metadata : DocumentMetadata.t
}.
End Document.

Module Analysis.
Record t := mk {
  id : string;
  document_id : string;
  total_detections : float;
  high_confidence_count : float;
  categories : list string;
  detections : list Detection.t;
  processing_time : float
}.

(** [{ ...analysis, detections: newDetections }] *)
Definition with_detections (newDetections : list Detection.t) (a : t) : t :=
  mk (id a) (document_id a) (total_detections a) (high_confidence_count a)
     (categories a) newDetections (processing_time a).
End Analysis.

Inductive OPRACategory :=
| PRIVACY_INTEREST
| PERSONAL_IDENTIFYING
| CRIMINAL_INVESTIGATORY
| HIPAA_DATA
| ATTORNEY_CLIENT
| JUVENILE_INFO.

Module RedactionConfig.
Record t := mk {
  document_type : string;
  confidence_threshold : float;
  enabled_categories : list OPRACategory;
  use_ai_detection : bool;
  use_pattern_detection : bool;
  use_context_analysis : bool
}.
End RedactionConfig.

Record AppState := mkAppState {
  currentDocument : option Document.t;
  currentAnalysis : option Analysis.t;
  documents : list Document.t;
  analyses : gmap string Analysis.t;
  isLoading : bool;
  error : option string;
  redactionConfig : RedactionConfig.t
}.

(** [state.currentAnalysis = value] and [state.analyses = value] *)
Definition with_currentAnalysis (value : option Analysis.t) (state : AppState) : AppState :=
  mkAppState (currentDocument state) value (documents state) (analyses state)
    (isLoading state) (error state) (redactionConfig state).

Definition with_analyses (value : gmap string Analysis.t) (state : AppState) : AppState :=
  mkAppState (currentDocument state) (currentAnalysis state) (documents state) value
    (isLoading state) (error state) (redactionConfig state).

Definition setCurrentDocument (document : option Document.t) (state : AppState) : AppState :=
  mkAppState document (currentAnalysis state) (documents state) (analyses state)
    (isLoading state) (error state) (redactionConfig state).

Definition setCurrentAnalysis (analysis : option Analysis.t) (state : AppState) : AppState :=
  with_currentAnalysis analysis state.

(** The id [addAnalysis] builds:
    [`det_${Date.now()}_${Math.random().toString(36).substr(2, 9)}`];
    [random36] is the suffix cut out of the random number's base-36 form. *)
Definition generatedDetectionId (now : N) (random36 : string) : string :=
  "det_" +:+ decimal now +:+ "_" +:+ random36.

(** [addAnalysis]: [now i] and [random36 i] are what [Date.now()] and the
    random suffix yield for the detection at index [i]. *)
Definition addAnalysis (now : nat → N) (random36 : nat → string)
    (analysis : Analysis.t) (state : AppState) : AppState :=
  let detectionsWithIds :=
    imap (λ i detection,
            Detection.with_id (generatedDetectionId (now i) (random36 i)) detection)
         (Analysis.detections analysis) in
  with_analyses
    (<[Analysis.id analysis := Analysis.with_detections detectionsWithIds analysis]>
       (analyses state))
    state.

Definition updateDetection (detectionId : string) (updates : DetectionUpdates.t)
    (state : AppState) : AppState :=
  match currentAnalysis state with
  | Some currentAnalysis =>
      match list_find (λ d, Detection.id d = detectionId)
                      (Analysis.detections currentAnalysis) with
      | Some (detectionIndex, detection) =>
          let currentAnalysis :=
            Analysis.with_detections
              (<[detectionIndex := assignDetection detection updates]>
                 (Analysis.detections currentAnalysis))
              currentAnalysis in
          with_analyses
            (<[Analysis.id currentAnalysis := currentAnalysis]> (analyses state))
            (with_currentAnalysis (Some currentAnalysis) state)
      | None => state
      end
  | None => state
  end.

Definition approveAllDetections (state : AppState) : AppState :=
  match currentAnalysis state with
  | Some currentAnalysis =>
      let currentAnalysis :=
        Analysis.with_detections
          (Detection.with_approved true <$> Analysis.detections currentAnalysis)
          currentAnalysis in
      with_analyses
        (<[Analysis.id currentAnalysis := currentAnalysis]> (analyses state))
        (with_currentAnalysis (Some currentAnalysis) state)
  | None => state
  end.

Definition rejectAllDetections (state : AppState) : AppState :=
  match currentAnalysis state with
  | Some currentAnalysis =>
      let currentAnalysis :=
        Analysis.with_detections
          (Detection.with_approved false <$> Analysis.detections currentAnalysis)
          currentAnalysis in
      with_analyses
        (<[Analysis.id currentAnalysis := currentAnalysis]> (analyses state))
        (with_currentAnalysis (Some currentAnalysis) state)
  | None => state
  end.

(** The store actions, as values, so that a trace can record which one a
    component invoked. *)
Inductive StoreAction :=
| SetCurrentDocument (document : option Document.t)
| SetCurrentAnalysis (analysis : option Analysis.t)
| AddAnalysis (now : nat → N) (random36 : nat → string) (analysis : Analysis.t)
| UpdateDetection (detectionId : string) (updates : DetectionUpdates.t)
| ApproveAllDetections
| RejectAllDetections.

Definition dispatch (action : StoreAction) (state : AppState) : AppState :=
  match action with
  | SetCurrentDocument document => setCurrentDocument document state
  | SetCurrentAnalysis analysis => setCurrentAnalysis analysis state
  | AddAnalysis now random36 analysis => addAnalysis now random36 analysis state
  | UpdateDetection detectionId updates => updateDetection detectionId updates state
  | ApproveAllDetections => approveAllDetections state
  | RejectAllDetections => rejectAllDetections state
  end.

(** The actions whose producer assigns into [state.analyses]. *)
Definition writesAnalyses (action : StoreAction) : bool :=
  match action with
  | AddAnalysis _ _ _ | UpdateDetection _ _ | ApproveAllDetections
  | RejectAllDetections => true
  | SetCurrentDocument _ | SetCurrentAnalysis _ => false
  end.

(** The store as created: [defaultRedactionConfig] of [useStore.ts] and
    nothing else. *)
Definition storeDefaultRedactionConfig : RedactionConfig.t :=
  RedactionConfig.mk "general" 0.1%float
    [PRIVACY_INTEREST; PERSONAL_IDENTIFYING; CRIMINAL_INVESTIGATORY; HIPAA_DATA;
     ATTORNEY_CLIENT; JUVENILE_INFO]
    true true true.

Definition initialState : AppState :=
  mkAppState None None [] ∅ false None storeDefaultRedactionConfig.

(** [addAnalysis] keeps the ids that detections already carry: the reading of
    the specification that the code is compared with. *)
Definition keepsAssignedIds (now : nat → N) (random36 : nat → string)
    (analysis : Analysis.t) (state : AppState) : Prop :=
  ∀ stored,
    analyses (addAnalysis now random36 analysis state) !! Analysis.id analysis
      = Some stored →
    Forall2 (λ d d', Detection.id d ≠ "" → Detection.id d' = Detection.id d)
            (Analysis.detections analysis) (Analysis.detections stored).

(** [c] occurs in [s]. *)
Fixpoint occurs (c : ascii) (s : string) : bool :=
  match s with
  | EmptyString => false
  | String c' s' => Ascii.eqb c c' || occurs c s'
  end.

(** Two detections that differ at most in their [approved] flag. *)
Definition sameButApproved (d d' : Detection.t) : Prop :=
  Detection.text d' = Detection.text d
  ∧ Detection.category d' = Detection.category d
  ∧ Detection.confidence d' = Detection.confidence d
  ∧ Detection.page_number d' = Detection.page_number d
  ∧ Detection.start_pos d' = Detection.start_pos d
  ∧ Detection.end_pos d' = Detection.end_pos d
  ∧ Detection.detection_reason d' = Detection.detection_reason d
  ∧ Detection.pattern_name d' = Detection.pattern_name d
  ∧ Detection.context d' = Detection.context d
  ∧ Detection.id d' = Detection.id d.

(** Two analyses that differ at most in their detections. *)
Definition sameButDetections (a a' : Analysis.t) : Prop :=
  Analysis.id a' = Analysis.id a
  ∧ Analysis.document_id a' = Analysis.document_id a
  ∧ Analysis.total_detections a' = Analysis.total_detections a
  ∧ Analysis.high_confidence_count a' = Analysis.high_confidence_count a
  ∧ Analysis.categories a' = Analysis.categories a
  ∧ Analysis.processing_time a' = Analysis.processing_time a.

(** Two store states that differ at most in [currentAnalysis] and
    [analyses]. *)
Definition sameButAnalyses (state state' : AppState) : Prop :=
  currentDocument state' = currentDocument state
  ∧ documents state' = documents state
  ∧ isLoading state' = isLoading state
  ∧ error state' = error state
  ∧ redactionConfig state' = redactionConfig state.

(** What [Object.assign] leaves in one property: the value the update object
    carries under that key, or the old value when the key is absent. *)
Definition assigned {A : Type} (old : A) (key : option A) (new : A) : Prop :=
  match key with
  | Some v => new = v
  | None => new = old
  end.

(** [merged] is [d] with the keys of [u] written over it, property by
    property. *)
Definition mergedInto (d : Detection.t) (u : DetectionUpdates.t)
    (merged : Detection.t) : Prop :=
  assigned (Detection.text d) (DetectionUpdates.text u) (Detection.text merged)
  ∧ assigned (Detection.category d) (DetectionUpdates.category u)
      (Detection.category merged)
  ∧ assigned (Detection.confidence d) (DetectionUpdates.confidence u)
      (Detection.confidence merged)
  ∧ assigned (Detection.page_number d) (DetectionUpdates.page_number u)
      (Detection.page_number merged)
  ∧ assigned (Detection.start_pos d) (DetectionUpdates.start_pos u)
      (Detection.start_pos merged)
  ∧ assigned (Detection.end_pos d) (DetectionUpdates.end_pos u)
      (Detection.end_pos merged)
  ∧ assigned (Detection.detection_reason d) (DetectionUpdates.detection_reason u)
      (Detection.detection_reason merged)
  ∧ assigned (Detection.pattern_name d) (Some <$> DetectionUpdates.pattern_name u)
      (Detection.pattern_name merged)
  ∧ assigned (Detection.context d) (Some <$> DetectionUpdates.context u)
      (Detection.context merged)
  ∧ assigned (Detection.approved d) (DetectionUpdates.approved u)
      (Detection.approved merged)
  ∧ assigned (Detection.id d) (DetectionUpdates.id u) (Detection.id merged).

(** The update object
    [{ detection_reason: 'Reviewed by clerk', context: 'payroll table',
       approved: true }]. *)
Definition reviewUpdate : DetectionUpdates.t :=
  DetectionUpdates.mk None None None None None None (Some "Reviewed by clerk") None
    (Some "payroll table") (Some true) None.

(** *** Sample data for the store *)

Definition sampleDetection (id : string) (approved : bool) : Detection.t :=
  Detection.mk "John Smith" "N.J.S.A. 47:1A-1.1(20)" 0.5%float 0%float 0%float
    10%float "Name pattern" None None approved id.

Definition sampleAnalysis : Analysis.t :=
  Analysis.mk "analysis_1" "doc_1" 2%float 0%float ["N.J.S.A. 47:1A-1.1(20)"]
    [sampleDetection "d1" true; sampleDetection "d2" false] 1.5%float.

Definition sampleDocument : Document.t :=
  Document.mk "doc_1" "report.pdf" 1024%float 1%float "2024-01-01T00:00:00Z"
    (DocumentMetadata.mk 1%float (Some "application/pdf") (Some "report.pdf")).

Definition sampleState : AppState :=
  mkAppState (Some sampleDocument) (Some sampleAnalysis) [sampleDocument] ∅ false
    None storeDefaultRedactionConfig.

(** The update object [{ approved: false }]. *)
Definition rejectUpdate : DetectionUpdates.t :=
  DetectionUpdates.mk None None None None None None None None None (Some false) None.

Definition sampleNow (i : nat) : N := 1700000000000%N.

Definition sampleRandom36 (i : nat) : string :=
  match i with
  | O => "k3x9q2m1z"
  | _ => "p0o9i8u7y"
  end.

(** ** Effects of the review page *)

Definition Blob : Type := list Byte.byte.

(** What a rejected promise carries: an [Error] with its message, or some
    other value that is not an [Error] and has no [message] (a string, a
    plain object; not [null] or [undefined], on which reading [message]
    would itself throw). *)
Inductive Thrown :=
| ErrorObject (message : string)
| OtherValue.

(** [error instanceof Error ? error.message : fallback] *)
Definition messageOr (e : Thrown) (fallback : string) : string :=
  match e with
  | ErrorObject message => message
  | OtherValue => fallback
  end.

Inductive Effect :=
| ToastLoading (message : string)
| ToastSuccess (message : string)
| ToastError (message : string)
| PostAnalyze (documentId : string) (config : RedactionConfig.t)
| PostRedact (documentId : string) (redactions : list Detection.t)
| Commit (action : StoreAction)
| Download (filename : string) (blob : Blob).

Definition isPostAnalyze (e : Effect) : bool :=
  match e with PostAnalyze _ _ => true | _ => false end.

Definition isPostRedact (e : Effect) : bool :=
  match e with PostRedact _ _ => true | _ => false end.

Definition isCommit (e : Effect) : bool :=
  match e with Commit _ => true | _ => false end.

Definition isCommitToAnalyses (e : Effect) : bool :=
  match e with Commit action => writesAnalyses action | _ => false end.

Definition isDownload (e : Effect) : bool :=
  match e with Download _ _ => true | _ => false end.

Definition countEffects (p : Effect → bool) (trace : list Effect) : nat :=
  length (filter (λ e, p e = true) trace).

(** ** Analysis orchestrator ([pages/DocumentReview.tsx], [services/api.ts]) *)

(** The detections of an engine response, as [startAnalysis] types them. *)
Module PartialDetection.
Record t := mk {
  text : string;
  category : string;
  pattern_name : option string;
  context : option string;
  id : option string;
  approved : option bool;
  detection_reason : option string;
  page_number : option float;
  start_pos : option float;
  end_pos : option float;
  confidence : option float
}.
End PartialDetection.

(** The body of a successful [POST /documents/{id}/analyze]. *)
Module AnalysisResponse.
Record t := mk {
  id : string;
  document_id : string;
  total_detections : float;
  high_confidence_count : float;
  categories : list string;
  detections : option (list PartialDetection.t);
  processing_time : float
}.
End AnalysisResponse.

(** [defaultRedactionConfig] of [DocumentReview.tsx]; [startAnalysis] sends a
    copy of its six fields. *)
Definition defaultRedactionConfig : RedactionConfig.t :=
  RedactionConfig.mk "general" 0.05%float
    [PRIVACY_INTEREST; PERSONAL_IDENTIFYING; CRIMINAL_INVESTIGATORY; HIPAA_DATA;
     ATTORNEY_CLIENT; JUVENILE_INFO]
    true true true.

(** The callback of [result.detections.map]: [now] is the reading of
    [Date.now()] taken if the id has to be built. *)
Definition formatDetection (now : N) (index : nat) (d : PartialDetection.t)
    : Detection.t :=
  Detection.mk
    (PartialDetection.text d)
    (PartialDetection.category d)
    (number_or (PartialDetection.confidence d) 0.9%float)
    (number_or (PartialDetection.page_number d) 0%float)
    (number_or (PartialDetection.start_pos d) 0%float)
    (number_or (PartialDetection.end_pos d) 0%float)
    (string_or (PartialDetection.detection_reason d) "Automatically detected")
    (PartialDetection.pattern_name d)
    (PartialDetection.context d)
    (match PartialDetection.approved d with
     | Some false => false
     | _ => true
     end)
    (string_or (PartialDetection.id d)
       ("detection-" +:+ decimal (N.of_nat index) +:+ "-" +:+ decimal now)).

(** [formattedResult] *)
Definition formatResult (now : nat → N) (result : AnalysisResponse.t) : Analysis.t :=
  Analysis.mk
    (AnalysisResponse.id result)
    (AnalysisResponse.document_id result)
    (AnalysisResponse.total_detections result)
    (AnalysisResponse.high_confidence_count result)
    (AnalysisResponse.categories result)
    (imap (λ index d, formatDetection (now index) index d)
          (default [] (AnalysisResponse.detections result)))
    (AnalysisResponse.processing_time result).

(** The hook instance: the guard [isAnalyzingRef.current], the store it
    writes to, and the effects performed so far. *)
Record Orchestrator := mkOrchestrator {
  isAnalyzingRef : bool;
  store : AppState;
  trace : list Effect
}.

(** How a call of [startAnalysis] ends. *)
Inductive Completion :=
| ReturnedNull
| ReturnedResult (formattedResult : Analysis.t)
| Threw (error : Thrown).

(** Where a call stands after its synchronous part. *)
Inductive CallStatus :=
| Done (completion : Completion)
| AwaitingResponse.

Section Orchestrator.

(** Template-literal rendering of a number ([`${data.total_detections}`]). *)
Variable numberToString : float → string.

(** [startAnalysis] up to its [await]: the guard check, the guard set, the
    loading toast, and the request issued by [mutateAsync]. *)
Definition startAnalysis_enter (docId : string) (o : Orchestrator)
    : CallStatus * Orchestrator :=
  if isAnalyzingRef o then (Done ReturnedNull, o)
  else
    (AwaitingResponse,
     mkOrchestrator true (store o)
       (trace o ++ [ToastLoading "Starting analysis...";
                    PostAnalyze docId defaultRedactionConfig])).

(** [startAnalysis] once the request has settled.  On success the mutation's
    [onSuccess] toast comes first, then the result is formatted, committed
    with [setCurrentAnalysis] and returned.  On failure the mutation's
    [onError] toast comes first, then the [catch] block shows its own toast
    and rethrows.  The [finally] block clears the guard either way. *)
Definition startAnalysis_resume (now : nat → N)
    (response : AnalysisResponse.t + Thrown) (o : Orchestrator)
    : Completion * Orchestrator :=
  match response with
  | inl result =>
      let formattedResult := formatResult now result in
      (ReturnedResult formattedResult,
       mkOrchestrator false
         (setCurrentAnalysis (Some formattedResult) (store o))
         (trace o ++
            [ToastSuccess ("Analysis complete: "
                           +:+ numberToString (AnalysisResponse.total_detections result)
                           +:+ " detections found");
             Commit (SetCurrentAnalysis (Some formattedResult));
             ToastSuccess "Analysis completed!"]))
  | inr error =>
      (Threw error,
       mkOrchestrator false (store o)
         (trace o ++
            [ToastError ("Analysis failed: " +:+ messageOr error "undefined");
             ToastError ("Analysis failed: " +:+ messageOr error "Unknown error")]))
  end.

(** The event loop as seen by one hook instance: [startAnalysis] is called,
    or the oldest request in flight settles. *)
Inductive Event :=
| Invoke (docId : string)
| Settle (now : nat → N) (response : AnalysisResponse.t + Thrown).

Record Run := mkRun {
  orchestrator : Orchestrator;
  inFlight : nat;
  completions : list Completion
}.

Definition runEvent (r : Run) (e : Event) : Run :=
  match e with
  | Invoke docId =>
      match startAnalysis_enter docId (orchestrator r) with
      | (Done completion, o) =>
          mkRun o (inFlight r) (completions r ++ [completion])
      | (AwaitingResponse, o) =>
          mkRun o (S (inFlight r)) (completions r)
      end
  | Settle now response =>
      match inFlight r with
      | O => r
      | S n =>
          let '(completion, o) := startAnalysis_resume now response (orchestrator r) in
          mkRun o n (completions r ++ [completion])
      end
  end.

Definition runEvents (events : list Event) (r : Run) : Run :=
  foldl runEvent r events.

(** A hook instance at rest: guard clear, nothing in flight. *)
Definition idle (state : AppState) : Run :=
  mkRun (mkOrchestrator false state []) 0 [].

End Orchestrator.

(** ** Redaction applier ([handleApplyRedactions]) *)

(** The callback of [approvedDetections.map]. *)
Definition prepareRedaction (now : N) (random36 : string) (d : Detection.t)
    : Detection.t :=
  Detection.mk
    (Detection.text d)
    (Detection.category d)
    (Detection.confidence d)
    (Detection.page_number d)
    (Detection.start_pos d)
    (Detection.end_pos d)
    (string_or (Some (Detection.detection_reason d)) "Manually approved")
    (Some (string_or (Detection.pattern_name d) ""))
    (Some (string_or (Detection.context d) ""))
    true
    (string_or (Some (Detection.id d))
       ("manual-" +:+ decimal now +:+ "-" +:+ random36)).

(** [currentAnalysis?.detections || []] *)
Definition detectionsOf (state : AppState) : list Detection.t :=
  match currentAnalysis state with
  | Some a => Analysis.detections a
  | None => []
  end.

(** [detections.filter(d => d.approved)] *)
Definition approvedDetections (state : AppState) : list Detection.t :=
  filter (λ d, Detection.approved d = true) (detectionsOf state).

(** [handleApplyRedactions], with the outcome of the request as an input:
    the effects it performs, in order. *)
Definition handleApplyRedactions (now : nat → N) (random36 : nat → string)
    (response : Blob + Thrown) (state : AppState) : list Effect :=
  match currentDocument state, currentAnalysis state with
  | Some currentDocument, Some _ =>
      if bool_decide (length (approvedDetections state) = 0%nat)
      then [ToastError "No redactions approved"]
      else
        let request :=
          PostRedact (Document.id currentDocument)
            (imap (λ i d, prepareRedaction (now i) (random36 i) d)
                  (approvedDetections state)) in
        match response with
        | inl redactedPdf =>
            [request;
             ToastSuccess "Redactions applied successfully";
             Download ("redacted_" +:+ Document.filename currentDocument) redactedPdf]
        | inr error =>
            [request;
             ToastError ("Redaction failed: " +:+ messageOr error "undefined")]
        end
  | _, _ => [ToastError "No document or analysis available"]
  end.

(** *** Sample data for the review page *)

(** An engine response whose only detection carries every field, with a
    confidence of zero. *)
Definition zeroConfidenceDetection : PartialDetection.t :=
  PartialDetection.mk "John Smith" "N.J.S.A. 47:1A-1.1(20)" None None
    (Some "d1") (Some true) (Some "Name pattern")
    (Some 0%float) (Some 0%float) (Some 10%float) (Some 0%float).

Definition sampleResponse : AnalysisResponse.t :=
  AnalysisResponse.mk "analysis_1" "doc_1" 1%float 0%float
    ["N.J.S.A. 47:1A-1.1(20)"] (Some [zeroConfidenceDetection]) 1.5%float.

Definition sampleNumberToString (x : float) : string := "1".

Definition sampleBlob : Blob := [Byte.x25; Byte.x50; Byte.x44; Byte.x46].

(** Two calls of [startAnalysis] in a row, then the response. *)
Definition rapidSuccession : list Event :=
  [Invoke "doc_1"; Invoke "doc_1"; Settle sampleNow (inl sampleResponse)].

(** The run makes exactly one request and exactly one commit into
    [analyses]: the reading of the specification that the code is compared
    with. *)
Definition oneRequestOneAnalysesCommit (r : Run) : Prop :=
  countEffects isPostAnalyze (trace (orchestrator r)) = 1%nat
  ∧ countEffects isCommitToAnalyses (trace (orchestrator r)) = 1%nat.

(** ** Further store actions ([store/useStore.ts]) *)

Definition with_documents (value : list Document.t) (state : AppState) : AppState :=
  mkAppState (currentDocument state) (currentAnalysis state) value (analyses state)
    (isLoading state) (error state) (redactionConfig state).

(** [addDocument]: replace the first document with the same id, or push. *)
Definition addDocument (document : Document.t) (state : AppState) : AppState :=
  match list_find (λ d, Document.id d = Document.id document) (documents state) with
  | Some (existingIndex, _) =>
      with_documents (<[existingIndex := document]> (documents state)) state
  | None => with_documents (documents state ++ [document]) state
  end.

(** [documents.find(d => d.id === documentId)] *)
Definition findDocument (documentId : string) (state : AppState) : option Document.t :=
  snd <$> list_find (λ d, Document.id d = documentId) (documents state).

(** ** Document upload page ([pages/DocumentUpload.tsx]) *)

(** [handleAnalyze] up to its [await]: the request, sent with the store's
    [redactionConfig].  Nothing guards it. *)
Definition handleAnalyze_enter (documentId : string) (state : AppState) : list Effect :=
  [PostAnalyze documentId (redactionConfig state)].

(** [handleAnalyze] once the request has settled: the new store state and the
    effects performed.  On success the mutation's toast comes first, then
    [addAnalysis], [setCurrentAnalysis], [setCurrentDocument] if the store
    holds a document with that id, and the page's own toast.  On failure only
    the mutation's toast is shown. *)
Definition handleAnalyze_settled (numberToString : float → string)
    (now : nat → N) (random36 : nat → string) (documentId : string)
    (response : Analysis.t + Thrown) (state : AppState) : AppState * list Effect :=
  match response with
  | inl analysis =>
      let state1 := addAnalysis now random36 analysis state in
      let state2 := setCurrentAnalysis (Some analysis) state1 in
      let hookToast :=
        ToastSuccess ("Analysis complete: "
                      +:+ numberToString (Analysis.total_detections analysis)
                      +:+ " detections found") in
      match findDocument documentId state2 with
      | Some document =>
          (setCurrentDocument (Some document) state2,
           [hookToast;
            Commit (AddAnalysis now random36 analysis);
            Commit (SetCurrentAnalysis (Some analysis));
            Commit (SetCurrentDocument (Some document));
            ToastSuccess "Analysis completed! Check the Review tab."])
      | None =>
          (state2,
           [hookToast;
            Commit (AddAnalysis now random36 analysis);
            Commit (SetCurrentAnalysis (Some analysis));
            ToastSuccess "Analysis completed! Check the Review tab."])
      end
  | inr error =>
      (state, [ToastError ("Analysis failed: " +:+ messageOr error "undefined")])
  end.

(** ** Derived values of the review page ([pages/DocumentReview.tsx]) *)

(** [detections.filter(d => d.approved).length] *)
Definition approvedCount (state : AppState) : nat :=
  length (approvedDetections state).

(** The [disabled] attribute of the Apply button. *)
Definition applyDisabled (state : AppState) : bool :=
  bool_decide (approvedCount state = 0%nat).

(** A detection as the redaction request needs it: approved, with an id and a
    reason that are not empty, and with [pattern_name] and [context]
    present. *)
Definition fullyPopulated (d : Detection.t) : Prop :=
  Detection.approved d = true
  ∧ Detection.id d ≠ ""
  ∧ Detection.detection_reason d ≠ ""
  ∧ is_Some (Detection.pattern_name d)
  ∧ is_Some (Detection.context d).

(** A detection as a formatted analysis holds it: id and reason not empty,
    a confidence that is neither zero nor NaN, and no NaN among the page
    number and the positions. *)
Definition wellFormed (d : Detection.t) : Prop :=
  Detection.id d ≠ ""
  ∧ Detection.detection_reason d ≠ ""
  ∧ number_truthy (Detection.confidence d) = true
  ∧ PrimFloat.is_nan (Detection.page_number d) = false
  ∧ PrimFloat.is_nan (Detection.start_pos d) = false
  ∧ PrimFloat.is_nan (Detection.end_pos d) = false.

(** The invariant of a hook instance's run: the guard is set exactly while
    one request is in flight; every request either is in flight or has ended
    a call with a result or an error; every result came with one commit; and
    no commit went into [analyses]. *)
Definition isSettled (c : Completion) : bool :=
  match c with
  | ReturnedNull => false
  | ReturnedResult _ | Threw _ => true
  end.

Definition isResult (c : Completion) : bool :=
  match c with
  | ReturnedResult _ => true
  | ReturnedNull | Threw _ => false
  end.

Definition singleFlight (r : Run) : Prop :=
  inFlight r = (if isAnalyzingRef (orchestrator r) then 1%nat else 0%nat)
  ∧ countEffects isPostAnalyze (trace (orchestrator r))
    = (inFlight r + length (filter (λ c, isSettled c = true) (completions r)))%nat
  ∧ countEffects isCommit (trace (orchestrator r))
    = length (filter (λ c, isResult c = true) (completions r))
  ∧ countEffects isCommitToAnalyses (trace (orchestrator r)) = 0%nat.

(** ** Selection state of the single-page service ([App.tsx]) *)

Section Selection.
Context {code_unit : Type}.
Variable heap : loc → RedactionItem.t code_unit.

(** [toggleRedaction]: the next value of [selectedRedactions]. *)
Definition toggleRedaction (index : Z) (selectedRedactions : gset Z) : gset Z :=
  if bool_decide (index ∈ selectedRedactions)
  then selectedRedactions ∖ {[index]}
  else selectedRedactions ∪ {[index]}.

(** [new Set(redactions.map((_, i) => i))] *)
Definition allIndices (redactions : list loc) : gset Z :=
  list_to_set (imap (λ i _, Z.of_nat i) redactions).

Definition selectAllRedactions (analysis : option DocumentAnalysis.t)
    (selectedRedactions : gset Z) : gset Z :=
  match analysis with
  | Some a => allIndices (DocumentAnalysis.redactions a)
  | None => selectedRedactions
  end.

Definition deselectAllRedactions : gset Z := ∅.

(** The indices of the redactions whose [page] is [currentPage] ([===] on
    numbers). *)
Definition pageRedactionIndices (a : DocumentAnalysis.t) (currentPage : float)
    : list Z :=
  (λ p : nat * loc, Z.of_nat p.1)
    <$> filter (λ p : nat * loc,
                  PrimFloat.eqb (RedactionItem.page (heap p.2)) currentPage = true)
               (imap (λ index r, (index, r)) (DocumentAnalysis.redactions a)).

Definition togglePageRedactions (analysis : option DocumentAnalysis.t)
    (currentPage : float) (selectedRedactions : gset Z) : gset Z :=
  match analysis with
  | None => selectedRedactions
  | Some a =>
      let indices := pageRedactionIndices a currentPage in
      let pageRedactionsSelected :=
        forallb (λ i, bool_decide (i ∈ selectedRedactions)) indices in
      if pageRedactionsSelected
      then foldl (λ newSelected i, newSelected ∖ {[i]}) selectedRedactions indices
      else foldl (λ newSelected i, newSelected ∪ {[i]}) selectedRedactions indices
  end.

(** [analysis?.redactions.filter(r => r.page === currentPage) || []] *)
Definition currentPageRedactions (analysis : option DocumentAnalysis.t)
    (currentPage : float) : list loc :=
  match analysis with
  | Some a =>
      filter (λ r, PrimFloat.eqb (RedactionItem.page (heap r)) currentPage = true)
             (DocumentAnalysis.redactions a)
  | None => []
  end.

(** [analysis.redactions.filter((_, index) => selectedRedactions.has(index))]
    of [handleGenerateRedacted]. *)
Definition finalRedactions (a : DocumentAnalysis.t) (selectedRedactions : gset Z)
    : list loc :=
  snd <$> filter (λ p : nat * loc, Z.of_nat p.1 ∈ selectedRedactions)
                 (imap (λ index r, (index, r)) (DocumentAnalysis.redactions a)).

End Selection.

(** ** Context of a redaction ([getRedactionContext], [App.tsx]) *)

Section RedactionContext.
Context {code_unit : Type}.

(** The code unit of the full stop. *)
Variable dot : code_unit.

(** [s.padStart(targetLength, '.')] and [s.padEnd(targetLength, '.')] *)
Definition padStart (s : list code_unit) (targetLength : nat) : list code_unit :=
  replicate (targetLength - length s) dot ++ s.

Definition padEnd (s : list code_unit) (targetLength : nat) : list code_unit :=
  s ++ replicate (targetLength - length s) dot.

Definition contextLength : nat := 40.

(** The [before] and [after] strings of [getRedactionContext]. *)
Definition contextBefore (redaction : RedactionItem.t code_unit) : list code_unit :=
  slice (padStart ([dot; dot; dot] ++ slice (RedactionItem.text redaction) 0 10)
                  contextLength)
        0 (Z.of_nat contextLength).

Definition contextAfter (redaction : RedactionItem.t code_unit) : list code_unit :=
  slice (padEnd (slice_from (RedactionItem.text redaction) (-10) ++ [dot; dot; dot])
                contextLength)
        0 (Z.of_nat contextLength).

End RedactionContext.

(** ** Page text cache ([loadPageText], [App.tsx]) *)

(** How the [fetch] of a page's text ends: a response that is [ok] and
    carries the text, a response that is not, or a network error. *)
Inductive TextResponse {code_unit : Type} :=
| TextOk (text : list code_unit)
| TextNotOk
| TextNetworkError.
Arguments TextResponse : clear implicits.

Section PageText.
Context {code_unit : Type}.

(** [ToBoolean] of [pageText[pageNum]]: a missing entry and the empty string
    are falsy. *)
Definition cachedText (pageText : gmap Z (list code_unit)) (pageNum : Z) : bool :=
  match pageText !! pageNum with
  | Some (_ :: _) => true
  | Some [] | None => false
  end.

(** [loadPageText] up to its [await]: whether the text is requested. *)
Definition loadPageText_requests (pageText : gmap Z (list code_unit)) (pageNum : Z)
    : bool :=
  negb (cachedText pageText pageNum).

(** [loadPageText] once the request has settled: the next [pageText]. *)
Definition loadPageText_settled (pageNum : Z) (response : TextResponse code_unit)
    (pageText : gmap Z (list code_unit)) : gmap Z (list code_unit) :=
  match response with
  | TextOk text => <[pageNum := text]> pageText
  | TextNotOk | TextNetworkError => pageText
  end.

End PageText.

(** ** Occurrences *)

(** [search] occurs in [text] at position [k]. *)
Definition occursAt {code_unit : Type} (text search : list code_unit) (k : nat) : Prop :=
  ∃ rest, drop k text = search ++ rest.

(** The position of the first occurrence of a detection's text: the key the
    detections are sorted by. *)
Definition firstOccurrence {code_unit : Type} `{!EqDecision code_unit}
    (text : list code_unit) (r : IndexedItem.t code_unit) : Z :=
  indexOf text (RedactionItem.text (IndexedItem.item r)) 0.

(** The invariant used for the plain segments: on top of [loop_inv], no plain
    segment emitted so far is empty and no more redacted segments were emitted
    than detections were processed. *)
Definition isPlainNonEmpty {code_unit : Type} (s : Segment.t code_unit) : Prop :=
  Segment.isRedacted s = false → Segment.text s ≠ [].

Definition redactedCount {code_unit : Type} (segments : list (Segment.t code_unit))
    : nat :=
  length (filter (λ s, Segment.isRedacted s = true) segments).

(** *** A response without ids *)

Definition anonymousDetection (text : string) : PartialDetection.t :=
  PartialDetection.mk text "N.J.S.A. 47:1A-1.1(20)" None None None None None None
    None None None.

Definition anonymousResponse : AnalysisResponse.t :=
  AnalysisResponse.mk "analysis_2" "doc_1" 2%float 2%float
    ["N.J.S.A. 47:1A-1.1(20)"]
    (Some [anonymousDetection "John Smith"; anonymousDetection "123-45-6789"])
    0.5%float.

(** What [prepareRedaction] keeps of a detection. *)
Definition preparedFrom (d r : Detection.t) : Prop :=
  Detection.text r = Detection.text d
  ∧ Detection.category r = Detection.category d
  ∧ Detection.confidence r = Detection.confidence d
  ∧ Detection.page_number r = Detection.page_number d
  ∧ Detection.start_pos r = Detection.start_pos d
  ∧ Detection.end_pos r = Detection.end_pos d
  ∧ (Detection.id d ≠ "" → Detection.id r = Detection.id d)
  ∧ (Detection.detection_reason d ≠ "" →
     Detection.detection_reason r = Detection.detection_reason d).

(** *** A two-page analysis for the single-page service *)

Definition pagedItem (page : float) (text : string) : RedactionItem.t ascii :=
  RedactionItem.mk page 0%float 0%float 0%float 0%float
    "REDACTED-N.J.S.A. 47:1A-1.1(20)" (js text) 0.5%float.

(** Objects [0] and [2] are on page 0, object [1] is on page 1. *)
Definition paged_heap (r : loc) : RedactionItem.t ascii :=
  match r with
  | O => pagedItem 0%float "John Smith"
  | S O => pagedItem 1%float "Jane Doe"
  | _ => pagedItem 0%float "123-45-6789"
  end.

Definition paged_analysis : DocumentAnalysis.t :=
  DocumentAnalysis.mk "doc_1" 2%float [0%nat; 1%nat; 2%nat] "analyzed".

(** * Properties *)

(** ** String search and slicing *)

Section JsStringFacts.
Context {code_unit : Type} `{!EqDecision code_unit}.
Implicit Types text search t : list code_unit.

Lemma startsWith_prefix search t :
  startsWith search t = true ↔ ∃ rest, t = search ++ rest.
Proof.
  revert t. induction search as [|c search IH]; intros [|d t]; simpl.
  - split; [by exists [] | done].
  - split; [by exists (d :: t) | done].
  - split; [done | by intros [rest ?]].
  - rewrite andb_true_iff, bool_decide_eq_true, IH. split.
    + intros [-> [rest ->]]. by exists rest.
    + intros [rest [= -> ->]]. split; [done | by exists rest].
Qed.

Lemma search_from_Some search t k m :
  search_from search t k = Some m →
  (k ≤ m ≤ k + length t)%nat ∧ ∃ rest, drop (m - k) t = search ++ rest.
Proof.
  revert k. induction t as [|d t IH]; intros k; simpl.
  - destruct (startsWith search []) eqn:E; [|done].
    intros [= <-]. split; [lia|]. apply startsWith_prefix in E.
    by rewrite Nat.sub_diag.
  - destruct (startsWith search (d :: t)) eqn:E.
    + intros [= <-]. split; [lia|]. apply startsWith_prefix in E.
      by rewrite Nat.sub_diag.
    + intros H. apply IH in H as [Hle [rest Hrest]]. split; [lia|].
      exists rest. replace (m - k)%nat with (S (m - S k)) by lia. done.
Qed.

(** A successful [indexOf] returns a genuine occurrence, at or after the
    clamped start position. *)
Lemma indexOf_found text search position :
  0 ≤ indexOf text search position →
  Z.min (Z.max position 0) (Z.of_nat (length text)) ≤ indexOf text search position
  ∧ indexOf text search position ≤ Z.of_nat (length text)
  ∧ ∃ rest, drop (Z.to_nat (indexOf text search position)) text = search ++ rest.
Proof.
  unfold indexOf.
  set (start := Z.to_nat (Z.min (Z.max position 0) (Z.of_nat (length text)))).
  destruct (search_from search (drop start text) start) as [m|] eqn:E; [|lia].
  intros _. apply search_from_Some in E as [Hle [rest Hrest]].
  rewrite length_drop in Hle.
  split; [lia|]. split; [lia|]. exists rest. rewrite Nat2Z.id.
  rewrite drop_drop in Hrest. by replace (start + (m - start))%nat with m in Hrest by lia.
Qed.

Lemma indexOf_found_bounds text search position :
  0 ≤ position ≤ Z.of_nat (length text) →
  0 ≤ indexOf text search position →
  position ≤ indexOf text search position
  ∧ indexOf text search position + Z.of_nat (length search) ≤ Z.of_nat (length text)
  ∧ take (length search) (drop (Z.to_nat (indexOf text search position)) text) = search.
Proof.
  intros Hpos Hfound.
  destruct (indexOf_found _ _ _ Hfound) as [Hle [Hup [rest Hrest]]].
  split; [lia|]. split.
  - assert (length (drop (Z.to_nat (indexOf text search position)) text)
            = length (search ++ rest)) as Hlen by (by rewrite Hrest).
    rewrite length_drop, length_app in Hlen. lia.
  - rewrite Hrest. by rewrite take_app_length.
Qed.

Lemma slice_take_drop text a b :
  0 ≤ a ≤ b → b ≤ Z.of_nat (length text) →
  slice text a b = take (Z.to_nat (b - a)) (drop (Z.to_nat a) text).
Proof.
  intros Ha Hb. unfold slice, relative_index.
  destruct (Z.ltb_spec a 0); [lia|]. destruct (Z.ltb_spec b 0); [lia|].
  by rewrite !Z.min_l by lia.
Qed.

Lemma take_slice text a b :
  0 ≤ a ≤ b → b ≤ Z.of_nat (length text) →
  take (Z.to_nat a) text ++ slice text a b = take (Z.to_nat b) text.
Proof.
  intros Ha Hb. rewrite slice_take_drop by done.
  rewrite take_take_drop. f_equal; lia.
Qed.

End JsStringFacts.

(** ** Highlight segmenter *)

Section SegmenterFacts.
Context {code_unit : Type} `{!EqDecision code_unit}.
Implicit Types text : list code_unit.
Implicit Types st : list (Segment.t code_unit) * Z.
Implicit Types segments : list (Segment.t code_unit).

Lemma concatSegments_snoc segments (s : Segment.t code_unit) :
  concatSegments (segments ++ [s]) = concatSegments segments ++ Segment.text s.
Proof.
  unfold concatSegments. rewrite fmap_app, concat_app. simpl. by rewrite app_nil_r.
Qed.

Lemma loop_inv_init text : loop_inv text ([], 0).
Proof. split; simpl; [lia | done]. Qed.

Lemma highlightStep_inv text st redaction :
  loop_inv text st → loop_inv text (highlightStep text st redaction).
Proof.
  destruct st as [segments currentIndex]. intros [Hcur Hcat]; simpl in *.
  unfold highlightStep.
  destruct (Z.leb_spec 0 (indexOf text (itemText redaction) currentIndex))
    as [Hfound|]; [|by split].
  destruct (indexOf_found_bounds text (itemText redaction) currentIndex Hcur Hfound)
    as (Hle & Hup & Hocc).
  set (startIndex := indexOf text (itemText redaction) currentIndex) in *.
  split; simpl; [lia|].
  rewrite concatSegments_snoc. simpl.
  assert (concatSegments
            (if currentIndex <? startIndex
             then segments ++ [Segment.mk (slice text currentIndex startIndex) false None]
             else segments) = take (Z.to_nat startIndex) text) as ->.
  { destruct (Z.ltb_spec currentIndex startIndex).
    - rewrite concatSegments_snoc, Hcat. simpl. apply take_slice; lia.
    - rewrite Hcat. f_equal. lia. }
  rewrite <- Hocc at 1. rewrite take_take_drop. f_equal. lia.
Qed.

Lemma foldl_highlightStep_inv text st (rs : list (IndexedItem.t code_unit)) :
  loop_inv text st → loop_inv text (foldl (highlightStep text) st rs).
Proof.
  revert st. induction rs as [|r rs IH]; intros st Hst; simpl; [done|].
  apply IH. by apply highlightStep_inv.
Qed.

Lemma remainingText_concat text st :
  loop_inv text st → concatSegments (remainingText text st) = text.
Proof.
  destruct st as [segments currentIndex]. intros [Hcur Hcat]; simpl in *.
  destruct (Z.ltb_spec currentIndex (Z.of_nat (length text))).
  - rewrite concatSegments_snoc, Hcat. simpl.
    unfold slice_from. rewrite take_slice by lia.
    rewrite Nat2Z.id. apply firstn_all.
  - rewrite Hcat. apply take_ge. lia.
Qed.

Lemma highlightSegments_concat analysis heap text redactions :
  concatSegments (highlightSegments analysis heap text redactions) = text.
Proof.
  apply remainingText_concat, foldl_highlightStep_inv, loop_inv_init.
Qed.

Lemma rendered_concat analysis heap text redactions :
  concatSegments (segmentsOf (renderTextWithHighlights analysis heap text redactions))
  = text.
Proof.
  unfold renderTextWithHighlights. case_bool_decide; simpl.
  - unfold concatSegments. simpl. apply app_nil_r.
  - apply highlightSegments_concat.
Qed.

(** C1. For every page text and every list of detections, the texts of the
    segments produced by [renderTextWithHighlights], concatenated in order,
    are exactly the page text. *)
Theorem segments_concat_is_text
    (analysis : option DocumentAnalysis.t)
    (heap : loc → RedactionItem.t code_unit)
    (text : list code_unit) (redactions : list loc) :
  concatSegments (segmentsOf (renderTextWithHighlights analysis heap text redactions))
  = text.
Proof. apply rendered_concat. Qed.

(** *** Ranges of the redacted segments *)

Lemma placed_located text (k : nat) segments :
  drop k text = concatSegments segments → (k ≤ length text)%nat →
  Forall (λ p, (p.1 + length (Segment.text p.2) ≤ length text)%nat
               ∧ take (length (Segment.text p.2)) (drop p.1 text) = Segment.text p.2)
         (placed k segments).
Proof.
  revert k. induction segments as [|s rest IH]; intros k Hdrop Hk; simpl.
  - constructor.
  - unfold concatSegments in Hdrop. simpl in Hdrop.
    fold (concatSegments rest) in Hdrop.
    assert (length (drop k text)
            = (length (Segment.text s) + length (concatSegments rest))%nat) as Hlen
      by (by rewrite Hdrop, length_app).
    rewrite length_drop in Hlen.
    constructor; simpl.
    + split; [lia|]. by rewrite Hdrop, take_app_length.
    + apply IH; [|lia].
      rewrite <- drop_drop, Hdrop. by rewrite drop_app_length.
Qed.

Lemma placed_from (k : nat) segments :
  Forall (λ p, (k ≤ p.1)%nat) (placed k segments).
Proof.
  revert k. induction segments as [|s rest IH]; intros k; simpl; constructor.
  - simpl. lia.
  - eapply Forall_impl; [apply IH|]. simpl. intros; lia.
Qed.

Lemma placed_in_order (k : nat) segments :
  StronglySorted (λ p q, (p.1 + length (Segment.text p.2) ≤ q.1)%nat)
                 (placed k segments).
Proof.
  revert k. induction segments as [|s rest IH]; intros k; simpl; constructor.
  - apply IH.
  - apply placed_from.
Qed.

Lemma redactedRanges_covers text segments :
  concatSegments segments = text → Forall (covers text) (redactedRanges segments).
Proof.
  intros Hcat. unfold redactedRanges.
  assert (Hloc := placed_located text 0 segments).
  rewrite drop_0 in Hloc. specialize (Hloc (eq_sym Hcat) ltac:(lia)).
  induction Hloc as [|p ps [Hp1 Hp2] _ IH]; simpl; [constructor|].
  destruct (Segment.isRedacted p.2); [|done].
  constructor; [|done]. split; simpl; [lia|].
  by replace (p.1 + length (Segment.text p.2) - p.1)%nat
    with (length (Segment.text p.2)) by lia.
Qed.

Lemma redactedRanges_in_order segments :
  StronglySorted precedes (redactedRanges segments).
Proof.
  unfold redactedRanges. generalize (placed_in_order 0 segments).
  induction 1 as [|p ps _ IH Hall]; simpl; [constructor|].
  destruct (Segment.isRedacted p.2); [|done].
  constructor; [done|].
  clear IH. induction Hall as [|q qs Hq _ IHq]; simpl; [constructor|].
  destruct (Segment.isRedacted q.2); [|done].
  constructor; [|done]. unfold precedes; simpl. lia.
Qed.

Lemma highlightStep_skip text segments (currentIndex : Z) redaction :
  indexOf text (itemText redaction) currentIndex < 0 →
  highlightStep text (segments, currentIndex) redaction = (segments, currentIndex).
Proof.
  intros Hmiss. unfold highlightStep.
  by destruct (Z.leb_spec 0 (indexOf text (itemText redaction) currentIndex)); [lia|].
Qed.

Lemma highlightStep_match text segments (currentIndex : Z) redaction :
  0 ≤ currentIndex ≤ Z.of_nat (length text) →
  0 ≤ indexOf text (itemText redaction) currentIndex →
  currentIndex ≤ indexOf text (itemText redaction) currentIndex
  ∧ (highlightStep text (segments, currentIndex) redaction).2
    = indexOf text (itemText redaction) currentIndex
      + Z.of_nat (length (itemText redaction)).
Proof.
  intros Hcur Hfound.
  destruct (indexOf_found_bounds text (itemText redaction) currentIndex Hcur Hfound)
    as (Hle & _ & _).
  split; [done|]. unfold highlightStep.
  by destruct (Z.leb_spec 0 (indexOf text (itemText redaction) currentIndex)); [|lia].
Qed.

(** C6. For every page text and detection list, the redacted segments of the
    output cover character ranges of the input text that hold exactly their
    text, and every such range stops before any later one starts, so no two of
    them overlap.  In the loop, a match is only ever taken at or after the
    cursor and moves the cursor to its end, and a detection whose text is not
    found at or after the cursor leaves the segments and the cursor as they
    were. *)
Theorem redacted_segments_do_not_overlap
    (analysis : option DocumentAnalysis.t)
    (heap : loc → RedactionItem.t code_unit)
    (text : list code_unit) (redactions : list loc) :
  let ranges :=
    redactedRanges (segmentsOf (renderTextWithHighlights analysis heap text redactions)) in
  Forall (covers text) ranges
  ∧ StronglySorted precedes ranges
  ∧ (∀ segments currentIndex redaction,
       0 ≤ currentIndex ≤ Z.of_nat (length text) →
       0 ≤ indexOf text (itemText redaction) currentIndex →
       currentIndex ≤ indexOf text (itemText redaction) currentIndex
       ∧ (highlightStep text (segments, currentIndex) redaction).2
         = indexOf text (itemText redaction) currentIndex
           + Z.of_nat (length (itemText redaction)))
  ∧ (∀ segments currentIndex redaction,
       indexOf text (itemText redaction) currentIndex < 0 →
       highlightStep text (segments, currentIndex) redaction
       = (segments, currentIndex)).
Proof.
  split; [|split; [|split]].
  - apply redactedRanges_covers, rendered_concat.
  - apply redactedRanges_in_order.
  - intros. by apply highlightStep_match.
  - intros. by apply highlightStep_skip.
Qed.

End SegmenterFacts.

Lemma redacted_segments_do_not_overlap_witness :
  highlightStep example_text ([], 0) (IndexedItem.mk (item "Jane Doe") 7) = ([], 0).
Proof.
  apply (redacted_segments_do_not_overlap (Some example_analysis) example_heap
           example_text [0%nat; 1%nat]).
  vm_compute. reflexivity.
Defined.

(** *** Tags of the redacted segments *)

Section TagFacts.
Context {code_unit : Type} `{!EqDecision code_unit}.
Implicit Types text : list code_unit.
Implicit Types rs : list (IndexedItem.t code_unit).

Lemma insert_sorted_elem_of {A} (compareFn : A → A → Z) (x y : A) (l : list A) :
  y ∈ insert_sorted compareFn x l → y = x ∨ y ∈ l.
Proof.
  induction l as [|z l IH]; simpl.
  - rewrite list_elem_of_singleton. by left.
  - destruct (compareFn x z <=? 0).
    + rewrite elem_of_cons. tauto.
    + rewrite !elem_of_cons. intros [->|H]; [tauto|]. apply IH in H. tauto.
Qed.

Lemma array_sort_elem_of {A} (compareFn : A → A → Z) (y : A) (l : list A) :
  y ∈ array_sort compareFn l → y ∈ l.
Proof.
  induction l as [|x l IH]; simpl; [done|].
  intros H. apply insert_sorted_elem_of in H as [->|H].
  - left.
  - right. by apply IH.
Qed.

(** Every element of [sortedRedactions] is the copy of a detection of the
    list passed in, with the global index computed for it. *)
Lemma sortedRedactions_origin analysis heap text redactions x :
  x ∈ sortedRedactions analysis heap text redactions →
  ∃ (idx : nat) (r : loc),
    redactions !! idx = Some r
    ∧ x = IndexedItem.mk (heap r) (globalIndexOf analysis r idx).
Proof.
  unfold sortedRedactions, withGlobalIndex. intros H.
  apply array_sort_elem_of, list_elem_of_filter in H as [_ H].
  apply elem_of_lookup_imap_1 in H as (idx & r & -> & Hr). eauto.
Qed.

Lemma highlightStep_pushed text rs st x :
  x ∈ rs →
  Forall (λ s, Segment.isRedacted s = true → ∃ y, y ∈ rs ∧ pushedFor y s) st.1 →
  Forall (λ s, Segment.isRedacted s = true → ∃ y, y ∈ rs ∧ pushedFor y s)
         (highlightStep text st x).1.
Proof.
  destruct st as [segments currentIndex]. simpl. intros Hx Hall.
  unfold highlightStep.
  destruct (0 <=? indexOf text (itemText x) currentIndex); [|done]. simpl.
  apply Forall_app. split.
  - destruct (currentIndex <? indexOf text (itemText x) currentIndex); [|done].
    apply Forall_app. split; [done|]. by repeat constructor.
  - repeat constructor. intros _. exists x. by split.
Qed.

Lemma foldl_highlightStep_pushed text rs l st :
  Forall (λ x, x ∈ rs) l →
  Forall (λ s, Segment.isRedacted s = true → ∃ y, y ∈ rs ∧ pushedFor y s) st.1 →
  Forall (λ s, Segment.isRedacted s = true → ∃ y, y ∈ rs ∧ pushedFor y s)
         (foldl (highlightStep text) st l).1.
Proof.
  intros Hl. revert st. induction Hl as [|x l Hx _ IH]; intros st Hst; simpl; [done|].
  apply IH. by apply highlightStep_pushed.
Qed.

(** Every redacted segment of the output was pushed for an element of
    [sortedRedactions]. *)
Lemma highlightSegments_pushed analysis heap text redactions :
  Forall (λ s, Segment.isRedacted s = true →
               ∃ y, y ∈ sortedRedactions analysis heap text redactions ∧ pushedFor y s)
         (highlightSegments analysis heap text redactions).
Proof.
  unfold highlightSegments.
  pose proof (foldl_highlightStep_pushed text
                (sortedRedactions analysis heap text redactions)
                (sortedRedactions analysis heap text redactions) ([], 0)) as H.
  destruct (foldl (highlightStep text) ([], 0)
              (sortedRedactions analysis heap text redactions))
    as [segments currentIndex]. simpl in *.
  assert (Forall (λ s, Segment.isRedacted s = true →
                       ∃ y, y ∈ sortedRedactions analysis heap text redactions
                            ∧ pushedFor y s) segments) as Hseg.
  { apply H; [|constructor]. by apply Forall_forall. }
  destruct (currentIndex <? Z.of_nat (length text)); [|done].
  apply Forall_app. split; [done|]. by repeat constructor.
Qed.

Lemma sublist_head_lookup (r : loc) (rest l : list loc) (idx : nat) :
  NoDup (r :: rest) → l `sublist_of` r :: rest → l !! idx = Some r → idx = 0%nat.
Proof.
  intros Hnd Hsub Hidx. apply NoDup_cons in Hnd as [Hnotin _].
  apply sublist_cons_r in Hsub as [Hsub|(l' & -> & Hsub)].
  - exfalso. apply Hnotin. eapply elem_of_sublist; [|done].
    by eapply list_elem_of_lookup_2.
  - destruct idx as [|i]; [done|]. simpl in Hidx.
    exfalso. apply Hnotin. eapply elem_of_sublist; [|done].
    by eapply list_elem_of_lookup_2.
Qed.

(** When the list passed in keeps the order of the analysis's list, whose
    objects are pairwise distinct, the global index computed for a detection
    is its index in the analysis's list. *)
Lemma globalIndexOf_sublist (a : DocumentAnalysis.t) (redactions : list loc)
    (idx : nat) (r : loc) :
  NoDup (DocumentAnalysis.redactions a) →
  redactions `sublist_of` DocumentAnalysis.redactions a →
  redactions !! idx = Some r →
  ∃ g : nat,
    DocumentAnalysis.redactions a !! g = Some r
    ∧ globalIndexOf (Some a) r idx = Z.of_nat g.
Proof.
  intros Hnd Hsub Hidx.
  assert (r ∈ DocumentAnalysis.redactions a) as Hin.
  { eapply elem_of_sublist; [|done]. by eapply list_elem_of_lookup_2. }
  destruct (list_find_elem_of (λ x, x = r) _ r Hin eq_refl) as [[g x] Hfind].
  pose proof Hfind as Hspec. apply list_find_Some in Hspec as (Hg & -> & _).
  exists g. split; [done|].
  unfold globalIndexOf, array_indexOf. simpl. rewrite Hfind. simpl.
  destruct (Z.eqb_spec (Z.of_nat g) 0) as [Hz|]; [|done].
  assert (g = 0%nat) as -> by lia.
  destruct (DocumentAnalysis.redactions a) as [|r0 rest]; [done|].
  simpl in Hg. injection Hg as ->.
  by rewrite (sublist_head_lookup r rest redactions idx Hnd Hsub Hidx).
Qed.

(** With an analysis loaded and a detection list that keeps the order of the
    analysis's list of pairwise distinct objects (as the per-page filter
    does), every redacted segment is tagged with the index of a detection of
    the list whose text it shows. *)
Lemma tags_identify_detections_of_sublist
    (a : DocumentAnalysis.t) (heap : loc → RedactionItem.t code_unit)
    (text : list code_unit) (redactions : list loc) :
  NoDup (DocumentAnalysis.redactions a) →
  redactions `sublist_of` DocumentAnalysis.redactions a →
  Forall (taggedByItsDetection (Some a) heap redactions)
         (segmentsOf (renderTextWithHighlights (Some a) heap text redactions)).
Proof.
  intros Hnd Hsub. unfold renderTextWithHighlights. case_bool_decide; simpl.
  - repeat constructor. by intros ?.
  - eapply Forall_impl; [apply highlightSegments_pushed|]. simpl.
    intros s Hs Hred. destruct (Hs Hred) as (y & Hy & Htext & Htag).
    apply sortedRedactions_origin in Hy as (idx & r & Hidx & ->). simpl in *.
    destruct (globalIndexOf_sublist a redactions idx r Hnd Hsub Hidx) as (g & Hg & Heq).
    exists a, g, r. rewrite Htag, Heq. repeat split; try done.
    by eapply list_elem_of_lookup_2.
Qed.

End TagFacts.

(** The example of the specification: the page "Name: John Smith, SSN:
    123-45-6789" with detections d1 ("John Smith", index 0) and d2
    ("123-45-6789", index 1) is cut into exactly four segments. *)
Lemma spec_example_segments :
  renderTextWithHighlights (Some example_analysis) example_heap example_text
    [0%nat; 1%nat]
  = HighlightedText
      [ Segment.mk (js "Name: ") false None;
        Segment.mk (js "John Smith") true (Some 0);
        Segment.mk (js ", SSN: ") false None;
        Segment.mk (js "123-45-6789") true (Some 1) ].
Proof. vm_compute. reflexivity. Qed.

(** C5 (the code departs from it). The detection at index 0 of the analysis,
    passed second, gets the fallback index: both redacted segments carry tag
    1, so the segment showing "Smith" is tagged as the detection "John". *)
Theorem first_detection_mistagged_when_not_first :
  renderTextWithHighlights (Some reading_analysis) reading_heap reading_text
    reading_redactions
  = HighlightedText
      [ Segment.mk (js "John") true (Some 1);
        Segment.mk (js " ") false None;
        Segment.mk (js "Smith") true (Some 1) ]
  ∧ ¬ Forall (taggedByItsDetection (Some reading_analysis) reading_heap reading_redactions)
        (segmentsOf (renderTextWithHighlights (Some reading_analysis) reading_heap
                       reading_text reading_redactions)).
Proof.
  assert (renderTextWithHighlights (Some reading_analysis) reading_heap reading_text
            reading_redactions
          = HighlightedText
              [ Segment.mk (js "John") true (Some 1);
                Segment.mk (js " ") false None;
                Segment.mk (js "Smith") true (Some 1) ]) as Heval
    by (vm_compute; reflexivity).
  split; [done|]. rewrite Heval. simpl. intros Hall.
  apply Forall_cons in Hall as [_ Hall]. apply Forall_cons in Hall as [_ Hall].
  apply Forall_cons in Hall as [Hsmith _].
  destruct (Hsmith eq_refl) as (a & g & r & [= <-] & Htag & Hg & _ & Htext).
  simpl in Htag. assert (g = 1%nat) as -> by (injection Htag; lia).
  simpl in Hg. injection Hg as <-. by vm_compute in Htext.
Qed.

(** ** Review store *)

Lemma updateDetection_found detectionId updates state a i d :
  currentAnalysis state = Some a →
  list_find (λ d, Detection.id d = detectionId) (Analysis.detections a) = Some (i, d) →
  updateDetection detectionId updates state
  = let a' := Analysis.with_detections
                (<[i := assignDetection d updates]> (Analysis.detections a)) a in
    mkAppState (currentDocument state) (Some a') (documents state)
      (<[Analysis.id a := a']> (analyses state))
      (isLoading state) (error state) (redactionConfig state).
Proof. intros Hcur Hfind. unfold updateDetection. by rewrite Hcur, Hfind. Qed.

(** [Object.assign] writes every key of the update object over the detection
    and leaves the other properties alone. *)
Lemma assignDetection_merged (d : Detection.t) (u : DetectionUpdates.t) :
  mergedInto d u (assignDetection d u).
Proof.
  destruct u as [t c cf pn sp ep dr pa cx ap i].
  unfold mergedInto, assignDetection, assigned. simpl.
  repeat split.
  - by destruct t.
  - by destruct c.
  - by destruct cf.
  - by destruct pn.
  - by destruct sp.
  - by destruct ep.
  - by destruct dr.
  - by destruct pa.
  - by destruct cx.
  - by destruct ap.
  - by destruct i.
Qed.

(** C9. [updateDetection] looks only at the detections of [currentAnalysis].
    Either none of them has the id (in particular when [currentAnalysis] is
    null) and the whole state is returned unchanged, or the first one that has
    it is replaced by the merged detection: each property takes the value the
    update object carries for it and keeps its old value when the update
    object has no such key.  The analysis, changed in that one detection
    only, becomes [currentAnalysis] and is written into [analyses] under its
    own id, every other field of the state staying as it was.  The function
    is total: no case raises. *)
Theorem updateDetection_current_analysis_only
    (detectionId : string) (updates : DetectionUpdates.t) (state : AppState) :
  ((∀ a d, currentAnalysis state = Some a → d ∈ Analysis.detections a →
           Detection.id d ≠ detectionId)
   ∧ updateDetection detectionId updates state = state)
  ∨ (∃ a i d,
       currentAnalysis state = Some a
       ∧ Analysis.detections a !! i = Some d
       ∧ Detection.id d = detectionId
       ∧ (∀ j d', (j < i)%nat → Analysis.detections a !! j = Some d' →
                  Detection.id d' ≠ detectionId)
       ∧ ∃ merged a',
           mergedInto d updates merged
           ∧ Analysis.detections a' = <[i := merged]> (Analysis.detections a)
           ∧ sameButDetections a a'
           ∧ updateDetection detectionId updates state
             = mkAppState (currentDocument state) (Some a') (documents state)
                 (<[Analysis.id a := a']> (analyses state))
                 (isLoading state) (error state) (redactionConfig state)).
Proof.
  destruct (currentAnalysis state) as [a|] eqn:Hcur.
  - destruct (list_find (λ d, Detection.id d = detectionId) (Analysis.detections a))
      as [[i d]|] eqn:Hfind.
    + right. pose proof Hfind as Hspec.
      apply list_find_Some in Hspec as (Hi & Hid & Hfirst).
      exists a, i, d. repeat split; try done.
      * intros j d' Hj Hd'. by eapply Hfirst.
      * exists (assignDetection d updates),
          (Analysis.with_detections
             (<[i := assignDetection d updates]> (Analysis.detections a)) a).
        split; [apply assignDetection_merged|]. split; [done|].
        split; [by repeat split|].
        by rewrite (updateDetection_found _ _ _ _ _ _ Hcur Hfind).
    + left. split.
      * intros a0 d [= <-] Hd.
        eapply list_find_None in Hfind. by eapply Forall_forall in Hfind.
      * unfold updateDetection. by rewrite Hcur, Hfind.
  - left. split; [done|]. unfold updateDetection. by rewrite Hcur.
Qed.

Lemma updateDetection_current_analysis_only_witness :
  ∃ a',
    currentAnalysis (updateDetection "d2" reviewUpdate sampleState) = Some a'
    ∧ analyses (updateDetection "d2" reviewUpdate sampleState) !! "analysis_1"
      = Some a'
    ∧ Analysis.detections a'
      = [sampleDetection "d1" true;
         Detection.mk "John Smith" "N.J.S.A. 47:1A-1.1(20)" 0.5%float 0%float
           0%float 10%float "Reviewed by clerk" None (Some "payroll table") true
           "d2"].
Proof.
  destruct (updateDetection_current_analysis_only "d2" reviewUpdate sampleState)
    as [[Hnone _]
       |(a & i & d & Hcur & Hi & Hid & Hfirst & merged & a' & Hmerged & Hdets
           & Hsame & Heq)].
  - exfalso.
    apply (Hnone sampleAnalysis (sampleDetection "d2" false) eq_refl);
      [apply list_elem_of_further, list_elem_of_here | reflexivity].
  - injection Hcur as <-. rewrite Heq. exists a'. simpl.
    split; [reflexivity|]. split; [apply lookup_insert_eq|].
    rewrite Hdets.
    destruct i as [|[|i]]; simpl in Hi.
    + injection Hi as <-. discriminate Hid.
    + injection Hi as <-.
      destruct merged as [t c cf pn sp ep dr pa cx ap id'].
      destruct Hmerged as (Ht & Hc & Hcf & Hpn & Hsp & Hep & Hdr & Hpa & Hcx
                           & Hap & Hid').
      unfold assigned in *. simpl in *. subst. reflexivity.
    + discriminate Hi.
Defined.

Lemma with_approved_sameButApproved value (ds : list Detection.t) :
  Forall2 (λ d d', sameButApproved d d' ∧ Detection.approved d' = value)
          ds (Detection.with_approved value <$> ds).
Proof.
  induction ds as [|d ds IH]; simpl; constructor; [|done].
  by repeat split.
Qed.

(** C10. With no current analysis, [approveAllDetections] and
    [rejectAllDetections] return the state they were given.  With a current
    analysis, [documents], [currentDocument], [redactionConfig], [isLoading]
    and [error] stay as they were; the current analysis keeps all its own
    fields and its detections keep theirs, except [approved], which takes the
    new value; and [analyses] changes only at the current analysis's id, where
    the updated analysis is stored. *)
Theorem bulk_approval_changes_only_approved (value : bool) (state : AppState) :
  let state' :=
    if value then approveAllDetections state else rejectAllDetections state in
  match currentAnalysis state with
  | None => state' = state
  | Some a =>
      sameButAnalyses state state'
      ∧ ∃ a',
          currentAnalysis state' = Some a'
          ∧ sameButDetections a a'
          ∧ Forall2 (λ d d', sameButApproved d d' ∧ Detection.approved d' = value)
                    (Analysis.detections a) (Analysis.detections a')
          ∧ analyses state' !! Analysis.id a = Some a'
          ∧ ∀ k, k ≠ Analysis.id a → analyses state' !! k = analyses state !! k
  end.
Proof.
  unfold approveAllDetections, rejectAllDetections.
  destruct (currentAnalysis state) as [a|] eqn:Hcur; simpl.
  - destruct value; simpl.
    all: split; [by repeat split|].
    all: eexists; split; [reflexivity|].
    all: split; [by repeat split|].
    all: split; [apply with_approved_sameButApproved|].
    all: split; [apply lookup_insert_eq|].
    all: intros k Hk; by apply lookup_insert_ne.
  - by destruct value.
Qed.

(** *** Generated detection ids *)

Lemma string_of_uint_no_underscore (d : Decimal.uint) :
  occurs "_" (NilEmpty.string_of_uint d) = false.
Proof. induction d; simpl; done. Qed.

Lemma decimal_no_underscore (n : N) : occurs "_" (decimal n) = false.
Proof. apply string_of_uint_no_underscore. Qed.

Lemma split_at_first (c : ascii) (s1 s2 r1 r2 : string) :
  occurs c s1 = false → occurs c s2 = false →
  s1 +:+ String c r1 = s2 +:+ String c r2 → s1 = s2 ∧ r1 = r2.
Proof.
  revert s2. induction s1 as [|a s1 IH]; intros [|b s2]; simpl.
  - by intros _ _ [= ->].
  - intros _ Hb [= <- _]. by rewrite Ascii.eqb_refl in Hb.
  - intros Ha _ [= -> _]. by rewrite Ascii.eqb_refl in Ha.
  - intros Ha Hb [= -> Hrest].
    apply orb_false_iff in Ha as [_ Ha]. apply orb_false_iff in Hb as [_ Hb].
    destruct (IH s2 Ha Hb Hrest) as [-> ->]. done.
Qed.

Lemma generatedDetectionId_suffix now1 now2 r1 r2 :
  generatedDetectionId now1 r1 = generatedDetectionId now2 r2 → r1 = r2.
Proof.
  unfold generatedDetectionId. simpl. intros [= H].
  by destruct (split_at_first "_" _ _ _ _
                 (decimal_no_underscore now1) (decimal_no_underscore now2) H).
Qed.

Lemma generatedDetectionId_nonempty now r : generatedDetectionId now r ≠ "".
Proof. done. Qed.

Lemma addAnalysis_stored now random36 analysis state :
  analyses (addAnalysis now random36 analysis state) !! Analysis.id analysis
  = Some (Analysis.with_detections
            (imap (λ i d, Detection.with_id
                            (generatedDetectionId (now i) (random36 i)) d)
                  (Analysis.detections analysis))
            analysis).
Proof. unfold addAnalysis. simpl. apply lookup_insert_eq. Qed.

(** The counterexample to C3 as stated: a detection that arrives with the id
    "d1" is stored under a generated id. *)
Lemma addAnalysis_overwrites_assigned_id :
  ¬ keepsAssignedIds sampleNow sampleRandom36 sampleAnalysis initialState.
Proof.
  intros Hkeeps.
  specialize (Hkeeps _ (addAnalysis_stored sampleNow sampleRandom36 sampleAnalysis
                          initialState)).
  simpl in Hkeeps. apply Forall2_cons_1 in Hkeeps as [Hd1 _].
  by specialize (Hd1 ltac:(done)).
Qed.

(** C3, amended. [addAnalysis] stores, under the analysis's id, the analysis
    with each of its detections given the generated id
    [det_<Date.now()>_<random suffix>] in place of whatever id it had, all
    other fields kept.  The generated ids are never empty, and they are
    pairwise distinct whenever the random suffixes drawn are. *)
Theorem addAnalysis_assigns_generated_ids
    (now : nat → N) (random36 : nat → string)
    (analysis : Analysis.t) (state : AppState) :
  ∃ stored,
    analyses (addAnalysis now random36 analysis state) !! Analysis.id analysis
      = Some stored
    ∧ sameButDetections analysis stored
    ∧ length (Analysis.detections stored) = length (Analysis.detections analysis)
    ∧ (∀ i d, Analysis.detections analysis !! i = Some d →
              Analysis.detections stored !! i
              = Some (Detection.with_id
                        (generatedDetectionId (now i) (random36 i)) d))
    ∧ Forall (λ d, Detection.id d ≠ "") (Analysis.detections stored)
    ∧ (NoDup (random36 <$> seq 0 (length (Analysis.detections analysis))) →
       NoDup (Detection.id <$> Analysis.detections stored)).
Proof.
  eexists. split; [apply addAnalysis_stored|]. simpl.
  split; [by repeat split|].
  split; [by rewrite length_imap|].
  split; [intros i d Hd; by rewrite list_lookup_imap, Hd|].
  split.
  - apply Forall_forall. intros d Hd.
    apply elem_of_lookup_imap_1 in Hd as (i & d0 & -> & _).
    apply generatedDetectionId_nonempty.
  - intros Hnd. apply NoDup_alt. intros i j x Hi Hj.
    rewrite list_lookup_fmap, list_lookup_imap in Hi, Hj.
    destruct (Analysis.detections analysis !! i) as [di|] eqn:Hdi; [|done].
    destruct (Analysis.detections analysis !! j) as [dj|] eqn:Hdj; [|done].
    simpl in Hi, Hj.
    assert (generatedDetectionId (now j) (random36 j)
            = generatedDetectionId (now i) (random36 i)) as Hij by congruence.
    apply generatedDetectionId_suffix in Hij as Hj'.
    apply lookup_lt_Some in Hdi, Hdj.
    eapply (proj1 (NoDup_alt _) Hnd i j (random36 i)).
    + by rewrite list_lookup_fmap, lookup_seq_lt.
    + by rewrite list_lookup_fmap, lookup_seq_lt, <- Hj'.
Qed.

Lemma addAnalysis_assigns_generated_ids_witness :
  ∃ stored,
    analyses (addAnalysis sampleNow sampleRandom36 sampleAnalysis initialState)
      !! "analysis_1" = Some stored
    ∧ NoDup (Detection.id <$> Analysis.detections stored).
Proof.
  destruct (addAnalysis_assigns_generated_ids sampleNow sampleRandom36 sampleAnalysis
              initialState) as (stored & Hstored & _ & _ & _ & _ & Hnd).
  exists stored. split; [exact Hstored|]. apply Hnd. simpl.
  apply NoDup_cons. split.
  - intros Hin. apply list_elem_of_singleton in Hin. discriminate Hin.
  - apply NoDup_singleton.
Defined.

(** ** Analysis orchestrator *)

Section OrchestratorFacts.
Variable numberToString : float → string.

(** With the guard set, a call returns null at once: no effect is performed
    and neither the guard nor the store changes. *)
Lemma startAnalysis_enter_guarded docId state effects :
  startAnalysis_enter docId (mkOrchestrator true state effects)
  = (Done ReturnedNull, mkOrchestrator true state effects).
Proof. done. Qed.

(** Calls made while the guard is set all return null and change nothing. *)
Lemma guarded_invocations docId state effects inflight done (n : nat) :
  runEvents numberToString (replicate n (Invoke docId))
    (mkRun (mkOrchestrator true state effects) inflight done)
  = mkRun (mkOrchestrator true state effects) inflight
      (done ++ replicate n ReturnedNull).
Proof.
  revert done. induction n as [|n IH]; intros done.
  - simpl. by rewrite app_nil_r.
  - change (replicate (S n) (Invoke docId))
      with (Invoke docId :: replicate n (Invoke docId)).
    unfold runEvents in *.
    change (foldl (runEvent numberToString) ?r (?e :: ?es))
      with (foldl (runEvent numberToString) (runEvent numberToString r e) es).
    change (runEvent numberToString
              (mkRun (mkOrchestrator true state effects) inflight done)
              (Invoke docId))
      with (mkRun (mkOrchestrator true state effects) inflight
              (done ++ [ReturnedNull])).
    rewrite IH. simpl. by rewrite <- app_assoc.
Qed.

Lemma collapsed_run state docId now result (n : nat) :
  runEvents numberToString
    (Invoke docId :: replicate n (Invoke docId) ++ [Settle now (inl result)])
    (idle state)
  = mkRun
      (mkOrchestrator false
         (setCurrentAnalysis (Some (formatResult now result)) state)
         [ToastLoading "Starting analysis...";
          PostAnalyze docId defaultRedactionConfig;
          ToastSuccess ("Analysis complete: "
                        +:+ numberToString (AnalysisResponse.total_detections result)
                        +:+ " detections found");
          Commit (SetCurrentAnalysis (Some (formatResult now result)));
          ToastSuccess "Analysis completed!"])
      0
      (replicate n ReturnedNull ++ [ReturnedResult (formatResult now result)]).
Proof.
  unfold runEvents. simpl. rewrite foldl_app.
  pose proof (guarded_invocations docId state
                [ToastLoading "Starting analysis...";
                 PostAnalyze docId defaultRedactionConfig] 1 [] n) as Hguarded.
  unfold runEvents in Hguarded. rewrite Hguarded. done.
Qed.

(** C2, amended. A call made while the guard is set returns null, performs no
    effect and leaves guard and store as they are.  A call followed by any
    number [n] of further calls before the response (the claim's two calls in
    a row are [n = 1]), and then the response, makes exactly one request and
    exactly one commit to the store; the commit is [setCurrentAnalysis] of the
    formatted result, so [currentAnalysis] is replaced and [analyses] is not
    written. *)
Theorem concurrent_startAnalysis_collapses
    (state : AppState) (effects : list Effect) (docId : string)
    (now : nat → N) (result : AnalysisResponse.t) (n : nat) :
  let final :=
    runEvents numberToString
      (Invoke docId :: replicate n (Invoke docId) ++ [Settle now (inl result)])
      (idle state) in
  let finalTrace := trace (orchestrator final) in
  startAnalysis_enter docId (mkOrchestrator true state effects)
    = (Done ReturnedNull, mkOrchestrator true state effects)
  ∧ runEvents numberToString (Invoke docId :: replicate n (Invoke docId)) (idle state)
    = mkRun (orchestrator (runEvents numberToString [Invoke docId] (idle state)))
        1 (replicate n ReturnedNull)
  ∧ completions final
    = replicate n ReturnedNull ++ [ReturnedResult (formatResult now result)]
  ∧ countEffects isPostAnalyze finalTrace = 1%nat
  ∧ countEffects isCommit finalTrace = 1%nat
  ∧ Commit (SetCurrentAnalysis (Some (formatResult now result))) ∈ finalTrace
  ∧ countEffects isCommitToAnalyses finalTrace = 0%nat
  ∧ store (orchestrator final)
    = setCurrentAnalysis (Some (formatResult now result)) state
  ∧ analyses (store (orchestrator final)) = analyses state
  ∧ isAnalyzingRef (orchestrator final) = false
  ∧ inFlight final = 0%nat.
Proof.
  intros final finalTrace. subst finalTrace final.
  rewrite collapsed_run. simpl.
  split; [done|]. split.
  - pose proof (guarded_invocations docId state
                  [ToastLoading "Starting analysis...";
                   PostAnalyze docId defaultRedactionConfig] 1 [] n) as Hguarded.
    unfold runEvents in *. simpl. by rewrite Hguarded.
  - repeat split; try done. set_solver.
Qed.

(** C8. When the request fails, the call ends by rethrowing the error, the
    store is exactly what it was (so neither [currentAnalysis] nor [analyses]
    changed) and no store action was invoked, and the guard is clear again: a
    further call is not turned away but issues a new request. *)
Theorem failed_analysis_commits_nothing
    (state : AppState) (docId docId' : string)
    (now : nat → N) (error : Thrown) :
  let final :=
    runEvents numberToString [Invoke docId; Settle now (inr error)] (idle state) in
  let retried := runEvents numberToString [Invoke docId'] final in
  completions final = [Threw error]
  ∧ store (orchestrator final) = state
  ∧ countEffects isCommit (trace (orchestrator final)) = 0%nat
  ∧ isAnalyzingRef (orchestrator final) = false
  ∧ inFlight final = 0%nat
  ∧ inFlight retried = 1%nat
  ∧ completions retried = [Threw error]
  ∧ countEffects isPostAnalyze (trace (orchestrator retried)) = 2%nat
  ∧ last (trace (orchestrator retried)) = Some (PostAnalyze docId' defaultRedactionConfig).
Proof. by repeat split. Qed.

End OrchestratorFacts.

(** The counterexample to C2 as stated: after two calls in a row and the
    response, no commit into [analyses] has been made, and the mapping is
    still empty. *)
Lemma rapid_succession_never_writes_analyses :
  ¬ oneRequestOneAnalysesCommit
      (runEvents sampleNumberToString rapidSuccession (idle initialState))
  ∧ analyses (store (orchestrator
        (runEvents sampleNumberToString rapidSuccession (idle initialState)))) = ∅.
Proof.
  split; [|done]. intros [_ Hcommits]. vm_compute in Hcommits. discriminate Hcommits.
Qed.

(** *** Normalisation of the engine response *)

Lemma number_or_truthy (v d : float) :
  number_truthy v = true → number_or (Some v) d = v.
Proof. intros H. unfold number_or. by rewrite H. Qed.

Lemma string_or_truthy (v d : string) : v ≠ "" → string_or (Some v) d = v.
Proof.
  intros H. unfold string_or, string_truthy.
  destruct (String.eqb_spec v ""); [done|done].
Qed.

(** Missing fields get their defaults, and a supplied field keeps its value
    provided it is truthy ([approved]: whatever it is). *)
Lemma formatDetection_defaults now index (d : PartialDetection.t) :
  let f := formatDetection now index d in
  Detection.text f = PartialDetection.text d
  ∧ Detection.category f = PartialDetection.category d
  ∧ Detection.pattern_name f = PartialDetection.pattern_name d
  ∧ Detection.context f = PartialDetection.context d
  ∧ (∀ b, PartialDetection.approved d = Some b → Detection.approved f = b)
  ∧ (PartialDetection.approved d = None → Detection.approved f = true)
  ∧ (∀ v, PartialDetection.id d = Some v → v ≠ "" → Detection.id f = v)
  ∧ (PartialDetection.id d = None →
     Detection.id f = "detection-" +:+ decimal (N.of_nat index) +:+ "-" +:+ decimal now)
  ∧ (∀ v, PartialDetection.detection_reason d = Some v → v ≠ "" →
          Detection.detection_reason f = v)
  ∧ (PartialDetection.detection_reason d = None →
     Detection.detection_reason f = "Automatically detected")
  ∧ (∀ v, PartialDetection.confidence d = Some v → number_truthy v = true →
          Detection.confidence f = v)
  ∧ (PartialDetection.confidence d = None → Detection.confidence f = 0.9%float)
  ∧ (∀ v, PartialDetection.page_number d = Some v → number_truthy v = true →
          Detection.page_number f = v)
  ∧ (PartialDetection.page_number d = None → Detection.page_number f = 0%float)
  ∧ (∀ v, PartialDetection.start_pos d = Some v → number_truthy v = true →
          Detection.start_pos f = v)
  ∧ (PartialDetection.start_pos d = None → Detection.start_pos f = 0%float)
  ∧ (∀ v, PartialDetection.end_pos d = Some v → number_truthy v = true →
          Detection.end_pos f = v)
  ∧ (PartialDetection.end_pos d = None → Detection.end_pos f = 0%float).
Proof.
  simpl. repeat split; try done.
  all: try (intros v -> Hv; by (apply number_or_truthy || apply string_or_truthy)).
  all: try (by intros ->).
  intros b ->. by destruct b.
Qed.

(** C4 (the code departs from it). A response that supplies every field, with
    confidence 0 and positions 0 and 10, comes out with its positions and all
    other fields as supplied but with confidence 0.9: the supplied confidence
    of zero is replaced by the default. *)
Theorem supplied_zero_confidence_is_replaced :
  formatDetection 1700000000000 0 zeroConfidenceDetection
  = Detection.mk "John Smith" "N.J.S.A. 47:1A-1.1(20)" 0.9%float 0%float 0%float
      10%float "Name pattern" None None true "d1"
  ∧ PartialDetection.confidence zeroConfidenceDetection = Some 0%float
  ∧ Detection.confidence (formatDetection 1700000000000 0 zeroConfidenceDetection)
    ≠ 0%float.
Proof.
  split; [by vm_compute|]. split; [done|].
  intros H. apply (f_equal (λ x, PrimFloat.eqb x 0%float)) in H.
  vm_compute in H. discriminate H.
Qed.

(** ** Redaction applier *)

(** C7. With an empty approved subset the handler only shows an error toast:
    no request is made and no download is triggered.  With a current
    document, a non-empty approved subset and a successful request, it makes
    the request, and triggers one download of the returned blob under the
    name "redacted_" followed by the document's file name. *)
Theorem apply_redactions_download
    (now : nat → N) (random36 : nat → string)
    (response : Blob + Thrown) (state : AppState) :
  (approvedDetections state = [] →
     (∃ message, handleApplyRedactions now random36 response state
                 = [ToastError message])
     ∧ countEffects isPostRedact (handleApplyRedactions now random36 response state)
       = 0%nat
     ∧ countEffects isDownload (handleApplyRedactions now random36 response state)
       = 0%nat)
  ∧ (∀ doc redactedPdf,
       currentDocument state = Some doc →
       approvedDetections state ≠ [] →
       response = inl redactedPdf →
       (∃ redactions,
          handleApplyRedactions now random36 response state
          = [PostRedact (Document.id doc) redactions;
             ToastSuccess "Redactions applied successfully";
             Download ("redacted_" +:+ Document.filename doc) redactedPdf])
       ∧ countEffects isDownload (handleApplyRedactions now random36 response state)
         = 1%nat).
Proof.
  unfold handleApplyRedactions. split.
  - intros Hnone. rewrite Hnone. simpl.
    destruct (currentDocument state), (currentAnalysis state); simpl; eauto.
  - intros doc redactedPdf Hdoc Hsome ->. rewrite Hdoc.
    destruct (currentAnalysis state) as [a|] eqn:Hcur.
    + case_bool_decide as Hlen.
      * by apply length_zero_iff_nil in Hlen.
      * split; [eauto | done].
    + exfalso. apply Hsome. unfold approvedDetections, detectionsOf. by rewrite Hcur.
Qed.

Lemma apply_redactions_download_witness :
  countEffects isPostRedact
    (handleApplyRedactions sampleNow sampleRandom36 (inl sampleBlob)
       (rejectAllDetections sampleState)) = 0%nat
  ∧ Download "redacted_report.pdf" sampleBlob
    ∈ handleApplyRedactions sampleNow sampleRandom36 (inl sampleBlob) sampleState.
Proof.
  split.
  - apply (apply_redactions_download sampleNow sampleRandom36 (inl sampleBlob)
             (rejectAllDetections sampleState)).
    reflexivity.
  - destruct (apply_redactions_download sampleNow sampleRandom36 (inl sampleBlob)
                sampleState) as [_ Hsuccess].
    destruct (Hsuccess sampleDocument sampleBlob eq_refl ltac:(discriminate) eq_refl)
      as [[redactions ->] _].
    apply list_elem_of_In. right. right. left. reflexivity.
Defined.

(** * Further properties *)

(** ** Occurrences and the order of the detections *)

Section OccurrenceFacts.
Context {code_unit : Type} `{!EqDecision code_unit}.
Implicit Types text search t : list code_unit.

Lemma search_from_None search t k :
  search_from search t k = None →
  ∀ j, (j ≤ length t)%nat → ¬ occursAt t search j.
Proof.
  revert k. induction t as [|d t IH]; intros k; simpl.
  - destruct (startsWith search []) eqn:E; [done|]. intros _ j Hj [rest Hrest].
    rewrite drop_nil in Hrest.
    assert (startsWith search [] = true) as Hs; [|congruence].
    apply startsWith_prefix. by exists rest.
  - destruct (startsWith search (d :: t)) eqn:E; [done|].
    intros Hnone [|j] Hj [rest Hrest]; simpl in *.
    + assert (startsWith search (d :: t) = true) as Hs; [|congruence].
      apply startsWith_prefix. by exists rest.
    + eapply (IH _ Hnone j); [lia|]. by exists rest.
Qed.

Lemma indexOf_range text search position :
  indexOf text search position = -1 ∨ 0 ≤ indexOf text search position.
Proof.
  unfold indexOf.
  destruct (search_from _ _ _); [right; lia | by left].
Qed.

(** An unsuccessful [indexOf] means that there is no occurrence at or after
    the clamped start position. *)
Lemma indexOf_not_found text search position (k : nat) :
  indexOf text search position < 0 →
  Z.min (Z.max position 0) (Z.of_nat (length text)) ≤ Z.of_nat k →
  (k ≤ length text)%nat →
  ¬ occursAt text search k.
Proof.
  unfold indexOf.
  set (start := Z.to_nat (Z.min (Z.max position 0) (Z.of_nat (length text)))).
  destruct (search_from search (drop start text) start) as [m|] eqn:E; [lia|].
  intros _ Hstart Hk [rest Hrest].
  eapply (search_from_None _ _ _ E (k - start)%nat).
  - rewrite length_drop. lia.
  - exists rest. rewrite drop_drop. by replace (start + (k - start))%nat with k by lia.
Qed.

(** [includes] is the substring test. *)
Lemma includes_substring text search :
  includes text search = true ↔ ∃ pre post, text = pre ++ search ++ post.
Proof.
  unfold includes. split.
  - intros H. apply negb_true_iff, Z.eqb_neq in H.
    destruct (indexOf_range text search 0) as [|Hfound]; [done|].
    destruct (indexOf_found _ _ _ Hfound) as (_ & _ & rest & Hrest).
    exists (take (Z.to_nat (indexOf text search 0)) text), rest.
    by rewrite <- Hrest, take_drop.
  - intros (pre & post & ->). apply negb_true_iff, Z.eqb_neq. intros Hmiss.
    apply (indexOf_not_found (pre ++ search ++ post) search 0 (length pre)).
    + lia.
    + rewrite length_app. lia.
    + rewrite length_app. lia.
    + exists post. by rewrite drop_app_length.
Qed.

Lemma search_from_first search t k m :
  search_from search t k = Some m →
  ∀ j, (j < m - k)%nat → ¬ occursAt t search j.
Proof.
  revert k. induction t as [|d t IH]; intros k; simpl.
  - destruct (startsWith search []); [|done]. intros [= <-] j Hj. lia.
  - destruct (startsWith search (d :: t)) eqn:E.
    + intros [= <-] j Hj. lia.
    + intros Hsome [|j] Hj [rest Hrest]; simpl in *.
      * assert (startsWith search (d :: t) = true) as Hs; [|congruence].
        apply startsWith_prefix. by exists rest.
      * apply search_from_Some in Hsome as Hm.
        eapply (IH _ Hsome j); [lia|]. by exists rest.
Qed.

(** A successful [indexOf] returns the first occurrence at or after the
    clamped start position. *)
Lemma indexOf_first text search position (k : nat) :
  0 ≤ indexOf text search position →
  Z.min (Z.max position 0) (Z.of_nat (length text)) ≤ Z.of_nat k →
  Z.of_nat k < indexOf text search position →
  ¬ occursAt text search k.
Proof.
  unfold indexOf.
  set (start := Z.to_nat (Z.min (Z.max position 0) (Z.of_nat (length text)))).
  destruct (search_from search (drop start text) start) as [m|] eqn:E; [|lia].
  intros _ Hstart Hk [rest Hrest].
  eapply (search_from_first _ _ _ _ E (k - start)%nat); [lia|].
  exists rest. rewrite drop_drop. by replace (start + (k - start))%nat with k by lia.
Qed.

Lemma insert_sorted_Permutation {A} (compareFn : A → A → Z) (x : A) (l : list A) :
  insert_sorted compareFn x l ≡ₚ x :: l.
Proof.
  induction l as [|y l IH]; simpl; [done|].
  destruct (compareFn x y <=? 0); [done|].
  rewrite IH. apply Permutation_swap.
Qed.

Lemma array_sort_Permutation {A} (compareFn : A → A → Z) (l : list A) :
  array_sort compareFn l ≡ₚ l.
Proof.
  induction l as [|x l IH]; simpl; [done|].
  rewrite insert_sorted_Permutation. by constructor.
Qed.

Lemma insert_sorted_by_key {A} (key : A → Z) (x : A) (l : list A) :
  StronglySorted (λ a b, key a ≤ key b) l →
  StronglySorted (λ a b, key a ≤ key b) (insert_sorted (λ a b, key a - key b) x l).
Proof.
  induction 1 as [|y l Hsorted IH Hall]; simpl.
  - repeat constructor.
  - destruct (Z.leb_spec (key x - key y) 0).
    + constructor; [by constructor|].
      constructor; [lia|]. eapply Forall_impl; [done|]. simpl. intros; lia.
    + constructor; [done|].
      rewrite insert_sorted_Permutation. constructor; [lia|done].
Qed.

Lemma array_sort_by_key {A} (key : A → Z) (l : list A) :
  StronglySorted (λ a b, key a ≤ key b) (array_sort (λ a b, key a - key b) l).
Proof.
  induction l as [|x l IH]; simpl; [constructor|]. by apply insert_sorted_by_key.
Qed.

(** X1. [sortedRedactions] holds exactly the detections whose text is a
    substring of the page text, each as often as it was passed in, ordered by
    the position of the first occurrence of their text, which is a genuine
    occurrence. *)
Theorem sortedRedactions_sorted_permutation
    (analysis : option DocumentAnalysis.t) (heap : loc → RedactionItem.t code_unit)
    (text : list code_unit) (redactions : list loc) :
  sortedRedactions analysis heap text redactions
    ≡ₚ filter (λ r, includes text (itemText r) = true)
              (withGlobalIndex analysis heap redactions)
  ∧ (∀ r : IndexedItem.t code_unit,
       includes text (itemText r) = true
       ↔ ∃ pre post, text = pre ++ itemText r ++ post)
  ∧ StronglySorted (λ a b, firstOccurrence text a ≤ firstOccurrence text b)
                   (sortedRedactions analysis heap text redactions)
  ∧ Forall (λ r, 0 ≤ firstOccurrence text r
                 ∧ occursAt text (itemText r) (Z.to_nat (firstOccurrence text r))
                 ∧ ∀ k : nat, Z.of_nat k < firstOccurrence text r →
                              ¬ occursAt text (itemText r) k)
           (sortedRedactions analysis heap text redactions).
Proof.
  assert (sortedRedactions analysis heap text redactions
            ≡ₚ filter (λ r, includes text (itemText r) = true)
                      (withGlobalIndex analysis heap redactions)) as Hperm
    by apply array_sort_Permutation.
  split; [done|]. split; [intros r; apply includes_substring|]. split.
  - apply (array_sort_by_key (firstOccurrence text)).
  - rewrite Hperm. apply Forall_forall. intros r Hr.
    apply list_elem_of_filter in Hr as [Hr _].
    unfold includes in Hr. apply negb_true_iff, Z.eqb_neq in Hr.
    unfold firstOccurrence. fold (itemText r).
    destruct (indexOf_range text (itemText r) 0) as [|Hfound]; [done|].
    split; [done|]. split.
    + by destruct (indexOf_found _ _ _ Hfound) as (_ & _ & Hocc).
    + intros k Hk. apply (indexOf_first text (itemText r) 0 k Hfound); lia.
Qed.

End OccurrenceFacts.

(** ** Shape of the segmenter's output *)

Section SegmentShapeFacts.
Context {code_unit : Type} `{!EqDecision code_unit}.
Implicit Types text : list code_unit.
Implicit Types st : list (Segment.t code_unit) * Z.
Implicit Types segments : list (Segment.t code_unit).

Lemma slice_length text a b :
  0 ≤ a ≤ b → b ≤ Z.of_nat (length text) →
  length (slice text a b) = Z.to_nat (b - a).
Proof.
  intros Ha Hb. rewrite slice_take_drop by done.
  rewrite length_take, length_drop. lia.
Qed.

Lemma redactedCount_snoc segments (s : Segment.t code_unit) :
  redactedCount (segments ++ [s])
  = (redactedCount segments + if Segment.isRedacted s then 1 else 0)%nat.
Proof.
  unfold redactedCount. rewrite filter_app, length_app. f_equal.
  rewrite filter_cons, filter_nil.
  destruct (Segment.isRedacted s); by case_decide.
Qed.

Lemma highlightStep_plain_nonempty text st redaction :
  loop_inv text st → Forall isPlainNonEmpty st.1 →
  Forall isPlainNonEmpty (highlightStep text st redaction).1.
Proof.
  destruct st as [segments currentIndex]. intros [Hcur _] Hall; simpl in *.
  unfold highlightStep.
  destruct (Z.leb_spec 0 (indexOf text (itemText redaction) currentIndex))
    as [Hfound|]; [|done].
  destruct (indexOf_found_bounds text (itemText redaction) currentIndex Hcur Hfound)
    as (Hle & Hup & _).
  simpl. apply Forall_app. split; [|by repeat constructor].
  destruct (Z.ltb_spec currentIndex (indexOf text (itemText redaction) currentIndex));
    [|done].
  apply Forall_app. split; [done|]. repeat constructor. intros _ Hnil. simpl in Hnil.
  apply (f_equal length) in Hnil. rewrite slice_length in Hnil by lia.
  simpl in Hnil. lia.
Qed.

Lemma highlightStep_count text st redaction :
  (redactedCount st.1 ≤ redactedCount (highlightStep text st redaction).1
   ≤ S (redactedCount st.1))%nat.
Proof.
  destruct st as [segments currentIndex]. simpl. unfold highlightStep.
  destruct (0 <=? indexOf text (itemText redaction) currentIndex); simpl; [|lia].
  rewrite redactedCount_snoc. simpl.
  destruct (currentIndex <? indexOf text (itemText redaction) currentIndex).
  - rewrite redactedCount_snoc. simpl. lia.
  - lia.
Qed.

Lemma foldl_highlightStep_shape text st (rs : list (IndexedItem.t code_unit)) :
  loop_inv text st → Forall isPlainNonEmpty st.1 →
  Forall isPlainNonEmpty (foldl (highlightStep text) st rs).1
  ∧ (redactedCount st.1 ≤ redactedCount (foldl (highlightStep text) st rs).1
     ≤ redactedCount st.1 + length rs)%nat.
Proof.
  revert st. induction rs as [|r rs IH]; intros st Hinv Hplain; simpl.
  - split; [done|lia].
  - destruct (IH (highlightStep text st r)) as [Hp Hc].
    + by apply highlightStep_inv.
    + by apply highlightStep_plain_nonempty.
    + split; [done|]. pose proof (highlightStep_count text st r). lia.
Qed.

Lemma remainingText_shape text st :
  loop_inv text st → Forall isPlainNonEmpty st.1 →
  Forall isPlainNonEmpty (remainingText text st)
  ∧ redactedCount (remainingText text st) = redactedCount st.1.
Proof.
  destruct st as [segments currentIndex]. intros [Hcur _] Hplain; simpl in *.
  destruct (Z.ltb_spec currentIndex (Z.of_nat (length text))); [|done].
  split.
  - apply Forall_app. split; [done|]. repeat constructor. intros _ Hnil.
    simpl in Hnil. apply (f_equal length) in Hnil.
    unfold slice_from in Hnil. rewrite slice_length in Hnil by lia.
    simpl in Hnil. lia.
  - rewrite redactedCount_snoc. simpl. lia.
Qed.

Lemma sortedRedactions_length analysis heap text redactions :
  (length (sortedRedactions analysis heap text redactions) ≤ length redactions)%nat.
Proof.
  unfold sortedRedactions.
  rewrite (Permutation_length (array_sort_Permutation _ _)).
  etrans; [apply length_filter|]. unfold withGlobalIndex. by rewrite length_imap.
Qed.

(** X2. In the highlighted output no plain segment is empty, and there are at
    most as many redacted segments as detections were passed in. *)
Theorem highlightSegments_shape
    (analysis : option DocumentAnalysis.t) (heap : loc → RedactionItem.t code_unit)
    (text : list code_unit) (redactions : list loc) :
  Forall isPlainNonEmpty (highlightSegments analysis heap text redactions)
  ∧ (redactedCount (highlightSegments analysis heap text redactions)
     ≤ length redactions)%nat.
Proof.
  unfold highlightSegments.
  destruct (foldl_highlightStep_shape text ([], 0)
              (sortedRedactions analysis heap text redactions)
              (loop_inv_init text) ltac:(constructor)) as [Hplain Hcount].
  destruct (remainingText_shape text _
              (foldl_highlightStep_inv text _ _ (loop_inv_init text)) Hplain)
    as [Hplain' Hcount'].
  split; [done|]. rewrite Hcount'. simpl in Hcount.
  pose proof (sortedRedactions_length analysis heap text redactions). lia.
Qed.

(** X3. When none of the detections' texts is a substring of the page text,
    the highlighted output is the whole text as one plain segment, and
    nothing at all when the text is empty. *)
Theorem no_occurrence_single_plain_segment
    (analysis : option DocumentAnalysis.t) (heap : loc → RedactionItem.t code_unit)
    (text : list code_unit) (redactions : list loc) :
  (∀ r pre post, r ∈ redactions →
                 text ≠ pre ++ RedactionItem.text (heap r) ++ post) →
  highlightSegments analysis heap text redactions
  = match text with
    | [] => []
    | _ :: _ => [Segment.mk text false None]
    end.
Proof.
  intros Hnone. unfold highlightSegments.
  assert (sortedRedactions analysis heap text redactions = []) as ->.
  { destruct (sortedRedactions analysis heap text redactions) as [|x rest] eqn:E;
      [done|]. exfalso.
    assert (x ∈ sortedRedactions analysis heap text redactions) as Hx
      by (rewrite E; left).
    pose proof Hx as Horigin.
    apply sortedRedactions_origin in Horigin as (idx & r & Hr & ->).
    unfold sortedRedactions in Hx.
    apply array_sort_elem_of, list_elem_of_filter in Hx as [Hx _].
    apply includes_substring in Hx as (pre & post & Htext). simpl in Htext.
    eapply Hnone; [|done]. by eapply list_elem_of_lookup_2. }
  simpl. destruct text as [|c text]; [done|].
  destruct (Z.ltb_spec 0 (Z.of_nat (length (c :: text)))); [|simpl in *; lia].
  simpl. do 2 f_equal. unfold slice_from.
  rewrite slice_take_drop by lia. rewrite Z.sub_0_r, Nat2Z.id. simpl.
  f_equal. apply firstn_all.
Qed.

Lemma highlightStep_appends text st redaction :
  ∃ more, (highlightStep text st redaction).1 = st.1 ++ more.
Proof.
  destruct st as [segments currentIndex]. simpl. unfold highlightStep.
  destruct (0 <=? indexOf text (itemText redaction) currentIndex); simpl.
  - destruct (currentIndex <? indexOf text (itemText redaction) currentIndex).
    + eexists. by rewrite <- app_assoc.
    + by eexists.
  - exists []. by rewrite app_nil_r.
Qed.

Lemma foldl_highlightStep_appends text st (rs : list (IndexedItem.t code_unit)) :
  ∃ more, (foldl (highlightStep text) st rs).1 = st.1 ++ more.
Proof.
  revert st. induction rs as [|r rs IH]; intros st; simpl.
  - exists []. by rewrite app_nil_r.
  - destruct (IH (highlightStep text st r)) as [more2 ->].
    destruct (highlightStep_appends text st r) as [more1 ->].
    exists (more1 ++ more2). by rewrite app_assoc.
Qed.

(** X4. The detection that comes first in [sortedRedactions] is always
    highlighted, at the first occurrence of its text: the output starts with
    the text before that occurrence (if there is any) as a plain segment,
    followed by the redacted segment of that detection. *)
Theorem earliest_detection_is_highlighted
    (analysis : option DocumentAnalysis.t) (heap : loc → RedactionItem.t code_unit)
    (text : list code_unit) (redactions : list loc)
    (x : IndexedItem.t code_unit) (rs : list (IndexedItem.t code_unit)) :
  sortedRedactions analysis heap text redactions = x :: rs →
  ∃ more,
    highlightSegments analysis heap text redactions
    = (if 0 <? firstOccurrence text x
       then [Segment.mk (slice text 0 (firstOccurrence text x)) false None]
       else [])
      ++ Segment.mk (itemText x) true (Some (IndexedItem.globalIndex x)) :: more.
Proof.
  intros Hsorted. unfold highlightSegments. rewrite Hsorted. simpl.
  assert (0 ≤ firstOccurrence text x) as Hfound.
  { assert (x ∈ sortedRedactions analysis heap text redactions) as Hx
      by (rewrite Hsorted; left).
    unfold sortedRedactions in Hx.
    apply array_sort_elem_of, list_elem_of_filter in Hx as [Hx _].
    unfold includes in Hx. apply negb_true_iff, Z.eqb_neq in Hx.
    unfold firstOccurrence. fold (itemText x).
    by destruct (indexOf_range text (itemText x) 0). }
  unfold firstOccurrence in *. fold (itemText x) in *.
  destruct (Z.leb_spec 0 (indexOf text (itemText x) 0)); [|lia].
  destruct (foldl_highlightStep_appends text
              ((if 0 <? indexOf text (itemText x) 0
                then [] ++ [Segment.mk (slice text 0 (indexOf text (itemText x) 0))
                              false None]
                else [])
               ++ [Segment.mk (itemText x) true (Some (IndexedItem.globalIndex x))],
               indexOf text (itemText x) 0 + Z.of_nat (length (itemText x))) rs)
    as [more Hmore].
  destruct (foldl (highlightStep text) _ rs) as [segments currentIndex].
  simpl in Hmore. subst segments. simpl.
  destruct (currentIndex <? Z.of_nat (length text)).
  - eexists. rewrite <- !app_assoc. simpl.
    destruct (0 <? indexOf text (itemText x) 0); simpl; reflexivity.
  - eexists. rewrite <- !app_assoc. simpl.
    destruct (0 <? indexOf text (itemText x) 0); simpl; reflexivity.
Qed.

End SegmentShapeFacts.

Lemma no_occurrence_single_plain_segment_witness :
  highlightSegments (Some example_analysis) example_heap (js "Nothing to hide")
    [0%nat; 1%nat]
  = [Segment.mk (js "Nothing to hide") false None].
Proof.
  apply (no_occurrence_single_plain_segment (Some example_analysis) example_heap
           (js "Nothing to hide") [0%nat; 1%nat]).
  intros r pre post Hr Htext.
  assert (includes (js "Nothing to hide") (RedactionItem.text (example_heap r)) = true)
    as Hincl by (apply includes_substring; eauto).
  apply list_elem_of_In in Hr. destruct Hr as [<-|[<-|[]]].
  - vm_compute in Hincl. discriminate Hincl.
  - vm_compute in Hincl. discriminate Hincl.
Defined.

Lemma earliest_detection_is_highlighted_witness :
  ∃ more,
    highlightSegments (Some example_analysis) example_heap example_text
      [0%nat; 1%nat]
    = [Segment.mk (js "Name: ") false None;
       Segment.mk (js "John Smith") true (Some 0)] ++ more.
Proof.
  assert (sortedRedactions (Some example_analysis) example_heap example_text
            [0%nat; 1%nat]
          = [IndexedItem.mk (item "John Smith") 0;
             IndexedItem.mk (item "123-45-6789") 1]) as Hsorted
    by (vm_compute; reflexivity).
  destruct (earliest_detection_is_highlighted (Some example_analysis) example_heap
              example_text [0%nat; 1%nat] _ _ Hsorted) as [more Hmore].
  exists more. exact Hmore.
Defined.

(** ** Documents of the store *)

Lemma list_find_cons_eq {A : Type} (P : A → Prop) `{!∀ x, Decision (P x)}
    (x : A) (l : list A) :
  list_find P (x :: l)
  = if decide (P x) then Some (0%nat, x) else prod_map S id <$> list_find P l.
Proof. done. Qed.

Section ListFindFacts.
Context {A : Type} (P : A → Prop) `{!∀ x, Decision (P x)}.

Lemma list_find_insert_found (l : list A) (i : nat) (x y : A) :
  list_find P l = Some (i, x) → P y → list_find P (<[i:=y]> l) = Some (i, y).
Proof.
  revert i. induction l as [|z l IH]; intros i; [done|].
  rewrite list_find_cons_eq. destruct (decide (P z)) as [Hz|Hz].
  - intros [= <- <-] Hy. change (<[0%nat:=y]> (z :: l)) with (y :: l).
    rewrite list_find_cons_eq. by rewrite decide_True.
  - destruct (list_find P l) as [[j w]|] eqn:E; [|done].
    intros [= <- <-] Hy. change (<[S j:=y]> (z :: l)) with (z :: <[j:=y]> l).
    rewrite list_find_cons_eq, decide_False by done.
    by rewrite (IH j eq_refl Hy).
Qed.

Lemma list_find_insert_missed (Q : A → Prop) `{!∀ x, Decision (Q x)}
    (l : list A) (i : nat) (x y : A) :
  l !! i = Some x → ¬ Q x → ¬ Q y → list_find Q (<[i:=y]> l) = list_find Q l.
Proof.
  revert i. induction l as [|z l IH]; intros i; [done|].
  destruct i as [|i].
  - intros [= ->] Hx Hy. change (<[0%nat:=y]> (x :: l)) with (y :: l).
    rewrite !list_find_cons_eq. by rewrite !decide_False by done.
  - intros Hi Hx Hy. change (<[S i:=y]> (z :: l)) with (z :: <[i:=y]> l).
    rewrite !list_find_cons_eq.
    destruct (decide (Q z)); [done|]. by rewrite (IH i Hi Hx Hy).
Qed.

Lemma list_find_snoc_missing (l : list A) (y : A) :
  list_find P l = None → P y → list_find P (l ++ [y]) = Some (length l, y).
Proof.
  induction l as [|z l IH].
  - intros _ Hy. change ([] ++ [y]) with [y].
    rewrite list_find_cons_eq. by rewrite decide_True.
  - change ((z :: l) ++ [y]) with (z :: (l ++ [y])).
    rewrite !list_find_cons_eq. destruct (decide (P z)); [done|].
    destruct (list_find P l); [done|]. intros _ Hy. by rewrite (IH eq_refl Hy).
Qed.

Lemma list_find_snoc_other (l : list A) (y : A) :
  ¬ P y → list_find P (l ++ [y]) = list_find P l.
Proof.
  intros Hy. induction l as [|z l IH].
  - change ([] ++ [y]) with [y]. rewrite list_find_cons_eq. by rewrite decide_False.
  - change ((z :: l) ++ [y]) with (z :: (l ++ [y])).
    rewrite !list_find_cons_eq. destruct (decide (P z)); [done|]. by rewrite IH.
Qed.

(** With pairwise distinct keys, looking an element up by its own key finds
    it where it is. *)
Lemma list_find_NoDup {B : Type} (key : A → B) `{!EqDecision B}
    (l : list A) (i : nat) (x : A) :
  NoDup (key <$> l) → l !! i = Some x →
  list_find (λ y, key y = key x) l = Some (i, x).
Proof.
  intros Hnd Hi. apply list_find_Some. split; [done|]. split; [done|].
  intros j y Hj Hlt Heq.
  assert (i = j); [|lia].
  eapply (proj1 (NoDup_alt _) Hnd i j (key x)).
  - by rewrite list_lookup_fmap, Hi.
  - rewrite list_lookup_fmap, Hj. simpl. by rewrite Heq.
Qed.

End ListFindFacts.

(** X5. After [addDocument], looking the document's id up finds that
    document, every other id is found as before, and ids that were pairwise
    distinct still are. *)
Theorem addDocument_lookup (document : Document.t) (state : AppState) :
  findDocument (Document.id document) (addDocument document state) = Some document
  ∧ (∀ documentId, documentId ≠ Document.id document →
       findDocument documentId (addDocument document state)
       = findDocument documentId state)
  ∧ (NoDup (Document.id <$> documents state) →
     NoDup (Document.id <$> documents (addDocument document state))).
Proof.
  unfold addDocument, findDocument.
  destruct (list_find (λ d, Document.id d = Document.id document) (documents state))
    as [[i existing]|] eqn:Hfind; simpl.
  - pose proof Hfind as Hspec. apply list_find_Some in Hspec as (Hi & Hid & _).
    split; [|split].
    + by rewrite (list_find_insert_found _ _ _ _ document Hfind eq_refl).
    + intros documentId Hne.
      rewrite (list_find_insert_missed (λ d, Document.id d = documentId)
                 _ _ existing document Hi); [done|congruence|congruence].
    + intros Hnd. rewrite list_fmap_insert, <- Hid.
      rewrite list_insert_id; [done|]. by rewrite list_lookup_fmap, Hi.
  - split; [|split].
    + by rewrite (list_find_snoc_missing _ _ document Hfind eq_refl).
    + intros documentId Hne. rewrite list_find_snoc_other; [done|congruence].
    + intros Hnd. rewrite fmap_app. apply NoDup_app. split; [done|]. split.
      * intros x Hx Hx'. apply list_elem_of_singleton in Hx'. subst x.
        apply list_elem_of_fmap in Hx as (d & Hd & Hin).
        apply list_find_None in Hfind. eapply Forall_forall in Hfind; [|done].
        by apply Hfind.
      * apply NoDup_singleton.
Qed.

(** X6. [addDocument] keeps the order of the ids: a known id keeps its place,
    a new one goes to the end.  A later version of a document replaces an
    earlier one, as if the earlier one had never been added; in particular
    adding the same document twice is adding it once. *)
Theorem addDocument_last_write_wins (earlier later : Document.t) (state : AppState) :
  Document.id <$> documents (addDocument later state)
  = (if bool_decide (Document.id later ∈ Document.id <$> documents state)
     then Document.id <$> documents state
     else (Document.id <$> documents state) ++ [Document.id later])
  ∧ (Document.id later = Document.id earlier →
     addDocument later (addDocument earlier state) = addDocument later state).
Proof.
  split.
  - unfold addDocument.
    destruct (list_find (λ d, Document.id d = Document.id later) (documents state))
      as [[i existing]|] eqn:Hfind; simpl.
    + apply list_find_Some in Hfind as (Hi & Hid & _).
      rewrite bool_decide_eq_true_2.
      * rewrite list_fmap_insert, <- Hid.
        apply list_insert_id. by rewrite list_lookup_fmap, Hi.
      * apply list_elem_of_fmap. exists existing. split; [done|].
        by eapply list_elem_of_lookup_2.
    + rewrite bool_decide_eq_false_2; [by rewrite fmap_app|].
      intros Hin. apply list_elem_of_fmap in Hin as (d & Hd & Hin).
      apply list_find_None in Hfind. eapply Forall_forall in Hfind; [|done].
      by apply Hfind.
  - intros Hid. unfold addDocument. rewrite Hid.
    destruct (list_find (λ d, Document.id d = Document.id earlier) (documents state))
      as [[i existing]|] eqn:Hfind; simpl.
    + rewrite (list_find_insert_found _ _ _ _ earlier Hfind eq_refl).
      unfold with_documents. simpl. by rewrite list_insert_insert_eq.
    + rewrite (list_find_snoc_missing _ _ earlier Hfind eq_refl).
      unfold with_documents. simpl.
      rewrite insert_app_r_alt by lia. by rewrite Nat.sub_diag.
Qed.

Lemma addDocument_lookup_witness :
  NoDup (Document.id <$> documents (addDocument sampleDocument sampleState)).
Proof.
  apply (addDocument_lookup sampleDocument sampleState).
  simpl. apply NoDup_singleton.
Defined.

Lemma addDocument_last_write_wins_witness :
  addDocument sampleDocument (addDocument sampleDocument initialState)
  = addDocument sampleDocument initialState.
Proof.
  apply (addDocument_last_write_wins sampleDocument sampleDocument initialState).
  reflexivity.
Defined.

(** ** Approval state *)

Lemma with_approved_twice (first second : bool) (ds : list Detection.t) :
  Detection.with_approved second <$> (Detection.with_approved first <$> ds)
  = Detection.with_approved second <$> ds.
Proof. rewrite <- list_fmap_compose. by apply list_fmap_ext. Qed.

Lemma bulk_twice (first second : bool) (state : AppState) :
  (if second then approveAllDetections else rejectAllDetections)
    ((if first then approveAllDetections else rejectAllDetections) state)
  = (if second then approveAllDetections else rejectAllDetections) state.
Proof.
  unfold approveAllDetections, rejectAllDetections.
  destruct first, second, (currentAnalysis state) as [a|] eqn:Hcur; simpl;
    rewrite ?Hcur; try done.
  all: unfold with_analyses, with_currentAnalysis, Analysis.with_detections; simpl.
  all: by rewrite with_approved_twice, insert_insert_eq.
Qed.

(** X7. Of two bulk approvals in a row only the second one counts: rejecting
    all after approving all is rejecting all, approving all after rejecting
    all is approving all, and either action done twice is that action done
    once. *)
Theorem bulk_approval_last_wins (state : AppState) :
  rejectAllDetections (approveAllDetections state) = rejectAllDetections state
  ∧ approveAllDetections (rejectAllDetections state) = approveAllDetections state
  ∧ approveAllDetections (approveAllDetections state) = approveAllDetections state
  ∧ rejectAllDetections (rejectAllDetections state) = rejectAllDetections state.
Proof.
  repeat split.
  - apply (bulk_twice true false).
  - apply (bulk_twice false true).
  - apply (bulk_twice true true).
  - apply (bulk_twice false false).
Qed.

Lemma assignDetection_twice (d : Detection.t) (u : DetectionUpdates.t) :
  assignDetection (assignDetection d u) u = assignDetection d u.
Proof.
  destruct u as [t c cf pn sp ep dr pa cx ap i]. unfold assignDetection. simpl.
  f_equal.
  - by destruct t.
  - by destruct c.
  - by destruct cf.
  - by destruct pn.
  - by destruct sp.
  - by destruct ep.
  - by destruct dr.
  - by destruct pa.
  - by destruct cx.
  - by destruct ap.
  - by destruct i.
Qed.

(** X8. An update that does not set [id] can be applied twice with the effect
    of applying it once: the second call finds the same detection and writes
    the same values. *)
Theorem updateDetection_idempotent
    (detectionId : string) (updates : DetectionUpdates.t) (state : AppState) :
  DetectionUpdates.id updates = None →
  updateDetection detectionId updates (updateDetection detectionId updates state)
  = updateDetection detectionId updates state.
Proof.
  intros Hnoid.
  destruct (currentAnalysis state) as [a|] eqn:Hcur.
  - destruct (list_find (λ d, Detection.id d = detectionId) (Analysis.detections a))
      as [[i d]|] eqn:Hfind.
    + pose proof Hfind as Hspec. apply list_find_Some in Hspec as (_ & Hid & _).
      assert (Detection.id (assignDetection d updates) = detectionId) as Hid'
        by (unfold assignDetection; simpl; by rewrite Hnoid).
      rewrite (updateDetection_found _ updates _ _ _ _ Hcur Hfind). simpl.
      unfold updateDetection. simpl.
      rewrite (list_find_insert_found _ _ _ _ (assignDetection d updates) Hfind Hid').
      unfold with_analyses, with_currentAnalysis, Analysis.with_detections. simpl.
      by rewrite list_insert_insert_eq, assignDetection_twice, insert_insert_eq.
    + assert (updateDetection detectionId updates state = state) as ->
        by (unfold updateDetection; by rewrite Hcur, Hfind).
      unfold updateDetection. by rewrite Hcur, Hfind.
  - assert (updateDetection detectionId updates state = state) as ->
      by (unfold updateDetection; by rewrite Hcur).
    unfold updateDetection. by rewrite Hcur.
Qed.

Lemma updateDetection_idempotent_witness :
  updateDetection "d1" rejectUpdate (updateDetection "d1" rejectUpdate sampleState)
  = updateDetection "d1" rejectUpdate sampleState.
Proof. apply updateDetection_idempotent. reflexivity. Defined.

Lemma updateDetection_at_row
    (updates : DetectionUpdates.t) (state : AppState)
    (a : Analysis.t) (row : nat) (d : Detection.t) :
  currentAnalysis state = Some a →
  NoDup (Detection.id <$> Analysis.detections a) →
  Analysis.detections a !! row = Some d →
  ∃ a',
    currentAnalysis (updateDetection (Detection.id d) updates state) = Some a'
    ∧ Analysis.detections a' !! row = Some (assignDetection d updates)
    ∧ ∀ other, other ≠ row →
        Analysis.detections a' !! other = Analysis.detections a !! other.
Proof.
  intros Hcur Hnd Hrow.
  pose proof (list_find_NoDup Detection.id _ _ _ Hnd Hrow) as Hfind.
  rewrite (updateDetection_found _ updates _ _ _ _ Hcur Hfind). simpl.
  eexists. split; [reflexivity|]. simpl. split.
  - apply list_lookup_insert_eq. by eapply lookup_lt_Some.
  - intros other Hother. by apply list_lookup_insert_ne.
Qed.

(** X9. When the detections of the current analysis have pairwise distinct
    ids, [updateDetection] called with the id of the detection at some
    position updates the detection at that position and no other. *)
Theorem updateDetection_hits_own_row
    (updates : DetectionUpdates.t) (state : AppState)
    (a : Analysis.t) (row : nat) (d : Detection.t) :
  currentAnalysis state = Some a →
  NoDup (Detection.id <$> Analysis.detections a) →
  Analysis.detections a !! row = Some d →
  ∃ a',
    currentAnalysis (updateDetection (Detection.id d) updates state) = Some a'
    ∧ Analysis.detections a' !! row = Some (assignDetection d updates)
    ∧ ∀ other, other ≠ row →
        Analysis.detections a' !! other = Analysis.detections a !! other.
Proof. apply updateDetection_at_row. Qed.

Lemma updateDetection_hits_own_row_witness :
  ∃ a',
    currentAnalysis (updateDetection "d2" rejectUpdate sampleState) = Some a'
    ∧ Analysis.detections a' !! 1%nat
      = Some (assignDetection (sampleDetection "d2" false) rejectUpdate).
Proof.
  destruct (updateDetection_hits_own_row rejectUpdate sampleState sampleAnalysis 1
              (sampleDetection "d2" false) eq_refl) as (a' & Hcur & Hrow & _).
  - simpl. apply NoDup_cons. split.
    + intros Hin. apply list_elem_of_singleton in Hin. discriminate Hin.
    + apply NoDup_singleton.
  - reflexivity.
  - exists a'. split; [exact Hcur | exact Hrow].
Defined.

(** ** Analysis from the upload page *)

(** X10. After a successful [handleAnalyze] the store holds the analysis
    twice: [currentAnalysis] with the detections as received, and
    [analyses[id]] with the ids [addAnalysis] generated.  The first bulk
    approval writes the current analysis over the stored one, so from then on
    the stored detections carry the ids as received, not the generated
    ones. *)
Theorem handleAnalyze_then_bulk_approval
    (numberToString : float → string) (now : nat → N) (random36 : nat → string)
    (documentId : string) (analysis : Analysis.t) (state : AppState) (value : bool) :
  let analysed :=
    (handleAnalyze_settled numberToString now random36 documentId (inl analysis)
       state).1 in
  let decided :=
    if value then approveAllDetections analysed else rejectAllDetections analysed in
  currentAnalysis analysed = Some analysis
  ∧ (∃ stored,
       analyses analysed !! Analysis.id analysis = Some stored
       ∧ Detection.id <$> Analysis.detections stored
         = imap (λ i _, generatedDetectionId (now i) (random36 i))
                (Analysis.detections analysis))
  ∧ ∃ a',
      currentAnalysis decided = Some a'
      ∧ analyses decided !! Analysis.id analysis = Some a'
      ∧ Detection.id <$> Analysis.detections a'
        = Detection.id <$> Analysis.detections analysis
      ∧ Forall (λ d, Detection.approved d = value) (Analysis.detections a').
Proof.
  intros analysed decided.
  assert (currentAnalysis analysed = Some analysis
          ∧ analyses analysed
            = analyses (addAnalysis now random36 analysis state)) as [Hcur Han].
  { subst analysed. unfold handleAnalyze_settled.
    by destruct (findDocument documentId _). }
  split; [done|]. split.
  - eexists. rewrite Han. split; [apply addAnalysis_stored|]. simpl.
    rewrite fmap_imap. by apply imap_ext.
  - subst decided. unfold approveAllDetections, rejectAllDetections.
    destruct value; rewrite Hcur; simpl.
    all: eexists; split; [reflexivity|]; split; [apply lookup_insert_eq|].
    all: simpl; split;
      [rewrite <- list_fmap_compose; by apply list_fmap_ext
      |by apply Forall_fmap, Forall_true].
Qed.

(** ** Runs of the analysis orchestrator *)

Lemma countEffects_app (p : Effect → bool) (l k : list Effect) :
  countEffects p (l ++ k) = (countEffects p l + countEffects p k)%nat.
Proof. unfold countEffects. by rewrite filter_app, length_app. Qed.

Lemma length_filter_snoc {A} (P : A → Prop) `{!∀ x, Decision (P x)}
    (l : list A) (x : A) :
  length (filter P (l ++ [x]))
  = (length (filter P l) + if decide (P x) then 1 else 0)%nat.
Proof.
  rewrite filter_app, length_app, filter_cons, filter_nil.
  by destruct (decide (P x)).
Qed.

Section RunFacts.
Variable numberToString : float → string.

Lemma runEvent_singleFlight (r : Run) (e : Event) :
  singleFlight r → singleFlight (runEvent numberToString r e).
Proof.
  destruct r as [[guard state effects] inflight done].
  unfold singleFlight. simpl. intros (Hflight & Hrequests & Hcommits & Hnone).
  destruct e as [docId|now response]; simpl.
  - unfold startAnalysis_enter. simpl. destruct guard; simpl.
    + rewrite !length_filter_snoc. simpl. repeat split; try done; lia.
    + rewrite !countEffects_app. subst inflight. simpl in *.
      repeat split; try done; unfold countEffects in *; simpl; lia.
  - destruct inflight as [|n]; [done|]. destruct guard; [|done].
    injection Hflight as ->.
    destruct response as [result|error]; simpl.
    + rewrite !countEffects_app, !length_filter_snoc. simpl.
      repeat split; try done; unfold countEffects in *; simpl; lia.
    + rewrite !countEffects_app, !length_filter_snoc. simpl.
      repeat split; try done; unfold countEffects in *; simpl; lia.
Qed.

Lemma runEvent_frame (r : Run) (e : Event) :
  sameButAnalyses (store (orchestrator r))
    (store (orchestrator (runEvent numberToString r e)))
  ∧ analyses (store (orchestrator (runEvent numberToString r e)))
    = analyses (store (orchestrator r)).
Proof.
  destruct r as [[guard state effects] inflight done].
  destruct e as [docId|now response]; simpl.
  - unfold startAnalysis_enter. simpl. by destruct guard.
  - destruct inflight as [|n]; [done|]. by destruct response.
Qed.

(** X11. Whatever the order in which [startAnalysis] is called and requests
    settle, a hook instance that starts at rest never has more than one
    request in flight: the guard is set exactly while one is.  Every request
    made either is still in flight or has ended a call with a result or an
    error, every result came with exactly one store commit, and no commit
    ever went into [analyses]. *)
Theorem startAnalysis_single_flight (events : list Event) (state : AppState) :
  singleFlight (runEvents numberToString events (idle state))
  ∧ (inFlight (runEvents numberToString events (idle state)) ≤ 1)%nat.
Proof.
  assert (∀ r, singleFlight r → singleFlight (runEvents numberToString events r))
    as Hall.
  { induction events as [|e events IH]; intros r Hr; [done|].
    apply IH. by apply runEvent_singleFlight. }
  assert (singleFlight (runEvents numberToString events (idle state))) as Hrun.
  { apply Hall. by repeat split. }
  split; [done|]. destruct Hrun as [-> _].
  destruct (isAnalyzingRef _); lia.
Qed.

(** X12. Whatever the order of calls and responses, [startAnalysis] leaves
    [documents], [currentDocument], [redactionConfig], [isLoading], [error]
    and the whole [analyses] mapping of the store as they were. *)
Theorem startAnalysis_frame (events : list Event) (state : AppState) :
  sameButAnalyses state
    (store (orchestrator (runEvents numberToString events (idle state))))
  ∧ analyses (store (orchestrator (runEvents numberToString events (idle state))))
    = analyses state.
Proof.
  assert (∀ r,
            sameButAnalyses (store (orchestrator r))
              (store (orchestrator (runEvents numberToString events r)))
            ∧ analyses (store (orchestrator (runEvents numberToString events r)))
              = analyses (store (orchestrator r))) as Hall.
  { induction events as [|e events IH]; intros r; [by repeat split|].
    destruct (runEvent_frame r e) as [(H1 & H2 & H3 & H4 & H5) Han].
    destruct (IH (runEvent numberToString r e))
      as [(H1' & H2' & H3' & H4' & H5') Han'].
    change (runEvents numberToString (e :: events) r)
      with (runEvents numberToString events (runEvent numberToString r e)).
    repeat split; congruence. }
  apply (Hall (idle state)).
Qed.

End RunFacts.

(** ** Normalised detections *)

Lemma number_truthy_not_nan (v : float) :
  number_truthy v = true → PrimFloat.is_nan v = false.
Proof.
  unfold number_truthy. intros H. apply negb_true_iff, orb_false_iff in H.
  by destruct H.
Qed.

Lemma number_or_truthy_default (x : option float) (d : float) :
  number_truthy d = true → number_truthy (number_or x d) = true.
Proof.
  intros Hd. unfold number_or. destruct x as [v|]; [|done].
  by destruct (number_truthy v) eqn:E.
Qed.

Lemma number_or_zero_not_nan (x : option float) :
  PrimFloat.is_nan (number_or x 0%float) = false.
Proof.
  unfold number_or. destruct x as [v|]; [|done].
  destruct (number_truthy v) eqn:E; [by apply number_truthy_not_nan|done].
Qed.

Lemma string_or_nonempty (x : option string) (d : string) :
  d ≠ "" → string_or x d ≠ "".
Proof.
  intros Hd. unfold string_or, string_truthy. destruct x as [v|]; [|done].
  by destruct (String.eqb_spec v "").
Qed.

Lemma formatDetection_wellFormed now index d :
  wellFormed (formatDetection now index d).
Proof.
  unfold wellFormed, formatDetection. simpl. repeat split.
  - by apply string_or_nonempty.
  - by apply string_or_nonempty.
  - by apply number_or_truthy_default.
  - apply number_or_zero_not_nan.
  - apply number_or_zero_not_nan.
  - apply number_or_zero_not_nan.
Qed.

(** X13. Every detection of a formatted result has an id and a reason that
    are not empty, a confidence that is neither zero nor NaN, and a page
    number and positions that are not NaN; text and category are as
    received, in the same order; a response without a [detections] array
    gives an analysis without detections. *)
Theorem formatResult_wellFormed (now : nat → N) (result : AnalysisResponse.t) :
  Forall wellFormed (Analysis.detections (formatResult now result))
  ∧ Detection.text <$> Analysis.detections (formatResult now result)
    = PartialDetection.text <$> default [] (AnalysisResponse.detections result)
  ∧ Detection.category <$> Analysis.detections (formatResult now result)
    = PartialDetection.category <$> default [] (AnalysisResponse.detections result)
  ∧ (AnalysisResponse.detections result = None →
     Analysis.detections (formatResult now result) = []).
Proof.
  unfold formatResult. simpl. split; [|split; [|split]].
  - apply Forall_forall. intros d Hd.
    apply elem_of_lookup_imap_1 in Hd as (i & d0 & -> & _).
    apply formatDetection_wellFormed.
  - rewrite fmap_imap. generalize (default [] (AnalysisResponse.detections result)).
    intros l. revert now. induction l as [|x l IH]; intros now; [done|].
    simpl. f_equal. apply (IH (now ∘ S)).
  - rewrite fmap_imap. generalize (default [] (AnalysisResponse.detections result)).
    intros l. revert now. induction l as [|x l IH]; intros now; [done|].
    simpl. f_equal. apply (IH (now ∘ S)).
  - by intros ->.
Qed.

Lemma string_of_uint_no_dash (d : Decimal.uint) :
  occurs "-" (NilEmpty.string_of_uint d) = false.
Proof. induction d; simpl; done. Qed.

Lemma decimal_inj (n m : N) : decimal n = decimal m → n = m.
Proof.
  unfold decimal. intros H.
  apply (f_equal NilEmpty.uint_of_string) in H. rewrite !NilEmpty.usu in H.
  injection H as H. by apply DecimalN.Unsigned.to_uint_inj.
Qed.

Lemma generated_review_id_inj (i j : nat) (now1 now2 : N) :
  "detection-" +:+ decimal (N.of_nat i) +:+ "-" +:+ decimal now1
  = "detection-" +:+ decimal (N.of_nat j) +:+ "-" +:+ decimal now2 →
  i = j.
Proof.
  simpl. intros [= H].
  destruct (split_at_first "-" _ _ _ _
              (string_of_uint_no_dash _) (string_of_uint_no_dash _) H) as [Hdec _].
  apply decimal_inj in Hdec. lia.
Qed.

Lemma formatResult_ids_distinct now (ds : list PartialDetection.t) :
  Forall (λ d, PartialDetection.id d = None ∨ PartialDetection.id d = Some "") ds →
  NoDup (Detection.id <$> imap (λ index d, formatDetection (now index) index d) ds).
Proof.
  intros Hnone. apply NoDup_alt. intros i j x Hi Hj.
  rewrite list_lookup_fmap, list_lookup_imap in Hi, Hj.
  destruct (ds !! i) as [di|] eqn:Hdi; [|done].
  destruct (ds !! j) as [dj|] eqn:Hdj; [|done].
  assert (∀ k d, ds !! k = Some d →
            Detection.id (formatDetection (now k) k d)
            = "detection-" +:+ decimal (N.of_nat k) +:+ "-" +:+ decimal (now k))
    as Hgen.
  { intros k d Hk. eapply Forall_lookup_1 in Hnone; [|done].
    unfold formatDetection. simpl. by destruct Hnone as [-> | ->]. }
  assert (Some (Detection.id (formatDetection (now i) i di)) = Some x) as Hi'
    by exact Hi.
  assert (Some (Detection.id (formatDetection (now j) j dj)) = Some x) as Hj'
    by exact Hj.
  rewrite (Hgen _ _ Hdi) in Hi'. rewrite (Hgen _ _ Hdj) in Hj'.
  apply (generated_review_id_inj i j (now i) (now j)). congruence.
Qed.

(** X14. When the response supplies no id (none, or the empty string) for any
    detection, the ids [startAnalysis] builds are pairwise distinct. *)
Theorem formatResult_fresh_ids_distinct (now : nat → N) (result : AnalysisResponse.t) :
  Forall (λ d, PartialDetection.id d = None ∨ PartialDetection.id d = Some "")
         (default [] (AnalysisResponse.detections result)) →
  NoDup (Detection.id <$> Analysis.detections (formatResult now result)).
Proof. intros Hnone. unfold formatResult. simpl. by apply formatResult_ids_distinct. Qed.

Lemma formatResult_fresh_ids_distinct_witness :
  NoDup (Detection.id <$> Analysis.detections (formatResult sampleNow anonymousResponse)).
Proof.
  apply formatResult_fresh_ids_distinct. simpl.
  repeat constructor.
Defined.

(** X15. When the response supplies no ids, then after a successful
    [startAnalysis] the approve and reject buttons of a row, which call
    [updateDetection] with that row's id, update that row and no other. *)
Theorem review_buttons_update_their_row
    (numberToString : float → string) (state : AppState) (docId : string)
    (now : nat → N) (result : AnalysisResponse.t)
    (updates : DetectionUpdates.t) (row : nat) (d : Detection.t) :
  Forall (λ d, PartialDetection.id d = None ∨ PartialDetection.id d = Some "")
         (default [] (AnalysisResponse.detections result)) →
  Analysis.detections (formatResult now result) !! row = Some d →
  let reviewed :=
    store (orchestrator
             (runEvents numberToString [Invoke docId; Settle now (inl result)]
                (idle state))) in
  ∃ a',
    currentAnalysis (updateDetection (Detection.id d) updates reviewed) = Some a'
    ∧ Analysis.detections a' !! row = Some (assignDetection d updates)
    ∧ ∀ other, other ≠ row →
        Analysis.detections a' !! other
        = Analysis.detections (formatResult now result) !! other.
Proof.
  intros Hnone Hrow reviewed.
  apply (updateDetection_at_row updates reviewed (formatResult now result) row d).
  - done.
  - unfold formatResult. simpl. by apply formatResult_ids_distinct.
  - done.
Qed.

Lemma review_buttons_update_their_row_witness :
  ∃ a',
    currentAnalysis
      (updateDetection "detection-1-1700000000000" rejectUpdate
         (store (orchestrator
                   (runEvents sampleNumberToString
                      [Invoke "doc_1"; Settle sampleNow (inl anonymousResponse)]
                      (idle initialState))))) = Some a'
    ∧ Detection.approved <$> Analysis.detections a' = [true; false].
Proof.
  destruct (review_buttons_update_their_row sampleNumberToString initialState "doc_1"
              sampleNow anonymousResponse rejectUpdate 1
              (formatDetection 1700000000000 1 (anonymousDetection "123-45-6789")))
    as (a' & Hcur & Hrow & Hothers).
  - simpl. repeat constructor.
  - reflexivity.
  - exists a'. split; [exact Hcur|].
    pose proof (Hothers 0%nat ltac:(lia)) as H0.
    pose proof (Hothers 2%nat ltac:(lia)) as H2.
    destruct (Analysis.detections a') as [|d0 [|d1 [|d2 rest]]];
      simpl in *; try discriminate.
    injection H0 as ->. injection Hrow as ->. reflexivity.
Defined.

(** ** Redaction request *)

Lemma prepareRedaction_fullyPopulated now random36 (d : Detection.t) :
  fullyPopulated (prepareRedaction now random36 d)
  ∧ preparedFrom d (prepareRedaction now random36 d).
Proof.
  unfold fullyPopulated, preparedFrom, prepareRedaction. cbn -[string_or].
  repeat split; try done.
  - by apply string_or_nonempty.
  - by apply string_or_nonempty.
  - intros Hid. by apply string_or_truthy.
  - intros Hreason. by apply string_or_truthy.
Qed.

Lemma prepared_list now random36 (ds : list Detection.t) :
  Forall fullyPopulated (imap (λ i d, prepareRedaction (now i) (random36 i) d) ds)
  ∧ Forall2 preparedFrom ds
      (imap (λ i d, prepareRedaction (now i) (random36 i) d) ds).
Proof.
  revert now random36. induction ds as [|d ds IH]; intros now random36; simpl.
  - split; constructor.
  - destruct (prepareRedaction_fullyPopulated (now 0%nat) (random36 0%nat) d).
    destruct (IH (now ∘ S) (random36 ∘ S)). split; by constructor.
Qed.

(** X16. Whenever [handleApplyRedactions] sends a request, it is addressed to
    the current document and carries one redaction per approved detection, in
    order; each is marked approved, has an id and a reason that are not
    empty and has [pattern_name] and [context] present; text, category,
    confidence and positions are those of the detection, and so are its id
    and reason unless they were empty. *)
Theorem redaction_request_fully_populated
    (now : nat → N) (random36 : nat → string) (response : Blob + Thrown)
    (state : AppState) (docId : string) (redactions : list Detection.t) :
  PostRedact docId redactions ∈ handleApplyRedactions now random36 response state →
  (∃ doc, currentDocument state = Some doc ∧ docId = Document.id doc)
  ∧ approvedDetections state ≠ []
  ∧ Forall fullyPopulated redactions
  ∧ Forall2 preparedFrom (approvedDetections state) redactions.
Proof.
  unfold handleApplyRedactions.
  destruct (currentDocument state) as [doc|], (currentAnalysis state) as [a|].
  2-4: intros Hin; apply list_elem_of_singleton in Hin; discriminate Hin.
  case_bool_decide as Hlen.
  { intros Hin. apply list_elem_of_singleton in Hin. discriminate Hin. }
  intros Hin.
  assert (PostRedact docId redactions
          = PostRedact (Document.id doc)
              (imap (λ i d, prepareRedaction (now i) (random36 i) d)
                    (approvedDetections state))) as Heq.
  { destruct response; apply list_elem_of_In in Hin; simpl in Hin;
      destruct Hin as [H|[H|H]]; try done; try discriminate H.
    destruct H as [H|[]]. discriminate H. }
  injection Heq as -> ->.
  split; [by exists doc|]. split.
  - intros Hnil. by rewrite Hnil in Hlen.
  - apply prepared_list.
Qed.

Lemma redaction_request_fully_populated_witness :
  Forall fullyPopulated
    [prepareRedaction 1700000000000 "k3x9q2m1z" (sampleDetection "d1" true)].
Proof.
  apply (redaction_request_fully_populated sampleNow sampleRandom36 (inl sampleBlob)
           sampleState "doc_1").
  left.
Defined.

Lemma approvedDetections_rejectAll (state : AppState) :
  approvedDetections (rejectAllDetections state) = [].
Proof.
  unfold approvedDetections, detectionsOf, rejectAllDetections.
  destruct (currentAnalysis state) as [a|] eqn:Hcur; simpl; [|by rewrite Hcur].
  induction (Analysis.detections a) as [|d ds IH]; [done|].
  rewrite fmap_cons, filter_cons.
  destruct (decide (Detection.approved (Detection.with_approved false d) = true))
    as [H|H]; [discriminate H | exact IH].
Qed.

Lemma approvedDetections_approveAll (state : AppState) (a : Analysis.t) :
  currentAnalysis state = Some a →
  approvedDetections (approveAllDetections state)
  = Detection.with_approved true <$> Analysis.detections a.
Proof.
  intros Hcur. unfold approvedDetections, detectionsOf, approveAllDetections.
  rewrite Hcur. simpl.
  induction (Analysis.detections a) as [|d ds IH]; [done|].
  rewrite fmap_cons, filter_cons.
  destruct (decide (Detection.approved (Detection.with_approved true d) = true))
    as [H|H]; [by f_equal | by destruct H].
Qed.

(** X17. After [rejectAllDetections], applying redactions makes no request
    and triggers no download, whatever the state was.  After
    [approveAllDetections], with a current document and a current analysis
    that has detections, a successful apply sends one redaction for every
    detection of the analysis and triggers the download. *)
Theorem bulk_approval_then_apply
    (now : nat → N) (random36 : nat → string) (response : Blob + Thrown)
    (state : AppState) :
  (countEffects isPostRedact
     (handleApplyRedactions now random36 response (rejectAllDetections state))
   = 0%nat
   ∧ countEffects isDownload
       (handleApplyRedactions now random36 response (rejectAllDetections state))
     = 0%nat)
  ∧ (∀ doc a redactedPdf,
       currentDocument state = Some doc →
       currentAnalysis state = Some a →
       Analysis.detections a ≠ [] →
       response = inl redactedPdf →
       ∃ redactions,
         handleApplyRedactions now random36 response (approveAllDetections state)
         = [PostRedact (Document.id doc) redactions;
            ToastSuccess "Redactions applied successfully";
            Download ("redacted_" +:+ Document.filename doc) redactedPdf]
         ∧ length redactions = length (Analysis.detections a)).
Proof.
  split.
  - unfold handleApplyRedactions. rewrite approvedDetections_rejectAll. simpl.
    by destruct (currentDocument (rejectAllDetections state)),
                (currentAnalysis (rejectAllDetections state)).
  - intros doc a redactedPdf Hdoc Hcur Hsome ->.
    unfold handleApplyRedactions.
    rewrite (approvedDetections_approveAll _ _ Hcur).
    unfold approveAllDetections. rewrite Hcur. simpl. rewrite Hdoc.
    case_bool_decide as Hlen.
    + rewrite length_fmap in Hlen. by apply length_zero_iff_nil in Hlen.
    + eexists. split; [reflexivity|]. by rewrite length_imap, length_fmap.
Qed.

Lemma bulk_approval_then_apply_witness :
  ∃ redactions,
    handleApplyRedactions sampleNow sampleRandom36 (inl sampleBlob)
      (approveAllDetections sampleState)
    = [PostRedact "doc_1" redactions;
       ToastSuccess "Redactions applied successfully";
       Download "redacted_report.pdf" sampleBlob]
    ∧ length redactions = 2%nat.
Proof.
  destruct (bulk_approval_then_apply sampleNow sampleRandom36 (inl sampleBlob)
              sampleState) as [_ Happrove].
  exact (Happrove sampleDocument sampleAnalysis sampleBlob eq_refl eq_refl
           ltac:(discriminate) eq_refl).
Defined.

(** X18. On the review page, where a document and an analysis are current,
    the Apply button is disabled exactly when the handler would turn the call
    away: it makes no request when the button is disabled and exactly one
    when it is not. *)
Theorem apply_button_matches_handler
    (now : nat → N) (random36 : nat → string) (response : Blob + Thrown)
    (state : AppState) (doc : Document.t) (a : Analysis.t) :
  currentDocument state = Some doc →
  currentAnalysis state = Some a →
  countEffects isPostRedact (handleApplyRedactions now random36 response state)
  = (if applyDisabled state then 0%nat else 1%nat)
  ∧ (applyDisabled state = true ↔
     handleApplyRedactions now random36 response state
     = [ToastError "No redactions approved"]).
Proof.
  intros Hdoc Hcur. unfold handleApplyRedactions, applyDisabled, approvedCount.
  rewrite Hdoc, Hcur. case_bool_decide as Hlen.
  - by split.
  - split; [by destruct response|]. split; [done|]. by destruct response.
Qed.

Lemma apply_button_matches_handler_witness :
  countEffects isPostRedact
    (handleApplyRedactions sampleNow sampleRandom36 (inl sampleBlob) sampleState)
  = 1%nat.
Proof.
  apply (apply_button_matches_handler sampleNow sampleRandom36 (inl sampleBlob)
           sampleState sampleDocument sampleAnalysis eq_refl eq_refl).
Defined.

(** ** Selection of redactions *)

#[local] Set Warnings "-clear-no-such-hyp".

Section SelectionFacts.
Context {code_unit : Type} `{!EqDecision code_unit}.
Variable heap : loc → RedactionItem.t code_unit.

(** X19. Toggling a redaction flips the membership of its index and of no
    other; toggling it twice gives back the selection. *)
Theorem toggleRedaction_flips_one (index : Z) (selectedRedactions : gset Z) :
  (index ∈ toggleRedaction index selectedRedactions ↔ index ∉ selectedRedactions)
  ∧ (∀ other, other ≠ index →
       (other ∈ toggleRedaction index selectedRedactions
        ↔ other ∈ selectedRedactions))
  ∧ toggleRedaction index (toggleRedaction index selectedRedactions)
    = selectedRedactions.
Proof.
  unfold toggleRedaction.
  destruct (decide (index ∈ selectedRedactions)) as [Hin|Hout].
  - rewrite (bool_decide_eq_true_2 _ Hin).
    assert (index ∉ selectedRedactions ∖ {[index]}) as Hgone by set_solver.
    rewrite (bool_decide_eq_false_2 _ Hgone).
    split; [set_solver|]. split; [set_solver|].
    apply set_eq. intros x. destruct (decide (x = index)) as [->|]; set_solver.
  - rewrite (bool_decide_eq_false_2 _ Hout).
    assert (index ∈ selectedRedactions ∪ {[index]}) as Hthere by set_solver.
    rewrite (bool_decide_eq_true_2 _ Hthere).
    split; [set_solver|]. split; [set_solver|]. set_solver.
Qed.

Lemma foldl_delete_elem_of (indices : list Z) (selected : gset Z) (i : Z) :
  i ∈ foldl (λ newSelected j, newSelected ∖ {[j]}) selected indices
  ↔ i ∈ selected ∧ i ∉ indices.
Proof.
  revert selected. induction indices as [|j indices IH]; intros selected; simpl.
  - set_solver.
  - rewrite IH. set_solver.
Qed.

Lemma foldl_add_elem_of (indices : list Z) (selected : gset Z) (i : Z) :
  i ∈ foldl (λ newSelected j, newSelected ∪ {[j]}) selected indices
  ↔ i ∈ selected ∨ i ∈ indices.
Proof.
  revert selected. induction indices as [|j indices IH]; intros selected; simpl.
  - set_solver.
  - rewrite IH. set_solver.
Qed.

Lemma enumerated_elem_of (l : list loc) (k : nat) (r : loc) :
  (k, r) ∈ imap (λ index r, (index, r)) l ↔ l !! k = Some r.
Proof.
  rewrite elem_of_lookup_imap. split.
  - by intros (i & y & [= -> ->] & Hi).
  - intros Hk. by exists k, r.
Qed.

Lemma pageRedactionIndices_elem_of (a : DocumentAnalysis.t) (currentPage : float)
    (i : Z) :
  i ∈ pageRedactionIndices heap a currentPage
  ↔ ∃ (k : nat) (r : loc),
      i = Z.of_nat k
      ∧ DocumentAnalysis.redactions a !! k = Some r
      ∧ PrimFloat.eqb (RedactionItem.page (heap r)) currentPage = true.
Proof.
  unfold pageRedactionIndices. rewrite list_elem_of_fmap. split.
  - intros ([k r] & -> & Hin). apply list_elem_of_filter in Hin as [Hpage Hin].
    apply enumerated_elem_of in Hin. by exists k, r.
  - intros (k & r & -> & Hk & Hpage). exists (k, r). split; [done|].
    apply list_elem_of_filter. split; [done|]. by apply enumerated_elem_of.
Qed.

(** X20. [togglePageRedactions] acts on the redactions of the current page
    only: if all of them were selected they all become unselected, otherwise
    they all become selected; the selection of every other index stays as it
    was.  Without an analysis nothing changes. *)
Theorem togglePageRedactions_page_only
    (a : DocumentAnalysis.t) (currentPage : float) (selectedRedactions : gset Z)
    (i : Z) :
  let onPage := pageRedactionIndices heap a currentPage in
  let toggled := togglePageRedactions heap (Some a) currentPage selectedRedactions in
  (i ∈ onPage ↔
   ∃ (k : nat) (r : loc),
     i = Z.of_nat k
     ∧ DocumentAnalysis.redactions a !! k = Some r
     ∧ PrimFloat.eqb (RedactionItem.page (heap r)) currentPage = true)
  ∧ (i ∉ onPage → (i ∈ toggled ↔ i ∈ selectedRedactions))
  ∧ (i ∈ onPage → (i ∈ toggled ↔ ¬ ∀ j, j ∈ onPage → j ∈ selectedRedactions))
  ∧ togglePageRedactions heap None currentPage selectedRedactions
    = selectedRedactions.
Proof.
  intros onPage toggled. split; [apply pageRedactionIndices_elem_of|].
  subst toggled. unfold togglePageRedactions. fold onPage.
  destruct (forallb (λ j, bool_decide (j ∈ selectedRedactions)) onPage) eqn:Hall.
  - assert (∀ j, j ∈ onPage → j ∈ selectedRedactions) as Hall'.
    { intros j Hj. rewrite forallb_forall in Hall.
      apply list_elem_of_In in Hj. by apply Hall, bool_decide_eq_true in Hj. }
    split; [|split; [|done]].
    + intros Hi. rewrite foldl_delete_elem_of. tauto.
    + intros Hi. rewrite foldl_delete_elem_of. tauto.
  - assert (¬ ∀ j, j ∈ onPage → j ∈ selectedRedactions) as Hall'.
    { intros Hcontra.
      assert (forallb (λ j, bool_decide (j ∈ selectedRedactions)) onPage = true)
        as Htrue; [|congruence].
      apply forallb_forall. intros j Hj.
      apply bool_decide_eq_true, Hcontra. by apply list_elem_of_In. }
    split; [|split; [|done]].
    + intros Hi. rewrite foldl_add_elem_of. tauto.
    + intros Hi. rewrite foldl_add_elem_of. tauto.
Qed.

Lemma finalRedactions_elem_of (a : DocumentAnalysis.t) (selected : gset Z) (r : loc) :
  r ∈ finalRedactions a selected
  ↔ ∃ k : nat, DocumentAnalysis.redactions a !! k = Some r ∧ Z.of_nat k ∈ selected.
Proof.
  unfold finalRedactions. rewrite list_elem_of_fmap. split.
  - intros ([k r'] & -> & Hin). apply list_elem_of_filter in Hin as [Hsel Hin].
    apply enumerated_elem_of in Hin. by exists k.
  - intros (k & Hk & Hsel). exists (k, r). split; [done|].
    apply list_elem_of_filter. split; [done|]. by apply enumerated_elem_of.
Qed.

Lemma filter_enumerated_all (P : nat * loc → Prop) `{!∀ p, Decision (P p)}
    (l : list loc) (f : nat → nat) :
  (∀ k r, l !! k = Some r → P (f k, r)) →
  snd <$> filter P (imap (λ index r, (f index, r)) l) = l.
Proof.
  revert f. induction l as [|x l IH]; intros f Hall; [done|].
  simpl. rewrite filter_cons, decide_True by (by apply (Hall 0%nat)).
  simpl. f_equal. apply (IH (f ∘ S)). intros k r Hk. by apply (Hall (S k)).
Qed.

Lemma filter_enumerated_sublist (P : nat * loc → Prop) `{!∀ p, Decision (P p)}
    (l : list loc) (f : nat → nat) :
  snd <$> filter P (imap (λ index r, (f index, r)) l) `sublist_of` l.
Proof.
  revert f. induction l as [|x l IH]; intros f; [done|].
  simpl. rewrite filter_cons. destruct (decide (P (f 0%nat, x))); simpl.
  - apply sublist_skip, (IH (f ∘ S)).
  - apply sublist_cons, (IH (f ∘ S)).
Qed.

(** X21. The redactions sent by [handleGenerateRedacted] are those whose
    index is selected, in the order of the analysis: all of them after
    [selectAllRedactions], none after [deselectAllRedactions]. *)
Theorem finalRedactions_follow_selection
    (a : DocumentAnalysis.t) (selectedRedactions : gset Z) :
  finalRedactions a selectedRedactions `sublist_of` DocumentAnalysis.redactions a
  ∧ (∀ r, r ∈ finalRedactions a selectedRedactions
          ↔ ∃ k : nat, DocumentAnalysis.redactions a !! k = Some r
                       ∧ Z.of_nat k ∈ selectedRedactions)
  ∧ finalRedactions a (selectAllRedactions (Some a) selectedRedactions)
    = DocumentAnalysis.redactions a
  ∧ finalRedactions a deselectAllRedactions = [].
Proof.
  split; [|split; [|split]].
  - apply (filter_enumerated_sublist _ _ id).
  - apply finalRedactions_elem_of.
  - unfold finalRedactions, selectAllRedactions, allIndices.
    apply (filter_enumerated_all _ _ id). intros k r Hk. simpl.
    apply elem_of_list_to_set, elem_of_lookup_imap. by exists k, r.
  - unfold finalRedactions, deselectAllRedactions.
    induction (imap (λ index r, (index, r)) (DocumentAnalysis.redactions a))
      as [|p l IH]; [done|].
    rewrite filter_cons. rewrite decide_False by set_solver. done.
Qed.

(** X22. Rendering a page with [currentPageRedactions], the list the
    component computes for it, tags every redacted segment with the index, in
    the analysis's list of distinct objects, of a detection of that page
    whose text the segment shows. *)
Theorem page_segments_tagged_with_page_detections
    (a : DocumentAnalysis.t) (currentPage : float) (text : list code_unit) :
  NoDup (DocumentAnalysis.redactions a) →
  Forall (λ s, Segment.isRedacted s = true →
               ∃ (g : nat) (r : loc),
                 Segment.redactionIndex s = Some (Z.of_nat g)
                 ∧ DocumentAnalysis.redactions a !! g = Some r
                 ∧ RedactionItem.text (heap r) = Segment.text s
                 ∧ PrimFloat.eqb (RedactionItem.page (heap r)) currentPage = true)
         (segmentsOf (renderTextWithHighlights (Some a) heap text
                        (currentPageRedactions heap (Some a) currentPage))).
Proof.
  intros Hnd.
  eapply Forall_impl;
    [apply (tags_identify_detections_of_sublist a heap text
              (currentPageRedactions heap (Some a) currentPage) Hnd);
     apply sublist_filter|].
  intros s Htag Hred. destruct (Htag Hred) as (a0 & g & r & [= <-] & Hg & Hr & Hin & Ht).
  exists g, r. repeat split; try done.
  unfold currentPageRedactions in Hin. by apply list_elem_of_filter in Hin as [Hpage _].
Qed.

End SelectionFacts.

Lemma page_segments_tagged_with_page_detections_witness :
  Forall (λ s, Segment.isRedacted s = true →
               ∃ (g : nat) (r : loc),
                 Segment.redactionIndex s = Some (Z.of_nat g)
                 ∧ DocumentAnalysis.redactions paged_analysis !! g = Some r
                 ∧ RedactionItem.text (paged_heap r) = Segment.text s
                 ∧ PrimFloat.eqb (RedactionItem.page (paged_heap r)) 0%float = true)
         (segmentsOf (renderTextWithHighlights (Some paged_analysis) paged_heap
                        example_text
                        (currentPageRedactions paged_heap (Some paged_analysis)
                           0%float))).
Proof.
  apply (page_segments_tagged_with_page_detections paged_heap paged_analysis
           0%float example_text).
  simpl. repeat (apply NoDup_cons; split; [set_solver|]). apply NoDup_nil_2.
Defined.

(** ** Context of a redaction and page text cache *)

Section ContextFacts.
Context {code_unit : Type}.
Variable dot : code_unit.

Lemma slice_whole (l : list code_unit) (n : nat) :
  length l = n → slice l 0 (Z.of_nat n) = l.
Proof.
  intros Hn. unfold slice, relative_index. simpl.
  rewrite (Z.min_l 0) by lia.
  destruct (Z.ltb_spec (Z.of_nat n) 0); [lia|].
  rewrite (Z.min_l (Z.of_nat n)) by lia. rewrite Z.sub_0_r, Nat2Z.id. simpl.
  subst n. apply firstn_all.
Qed.

Lemma slice_first_ten (text : list code_unit) : slice text 0 10 = take 10 text.
Proof.
  unfold slice, relative_index. simpl. rewrite (Z.min_l 0) by lia.
  rewrite Z.sub_0_r. simpl.
  destruct (Z.le_ge_cases 10 (Z.of_nat (length text))).
  - by rewrite Z.min_l by lia.
  - rewrite Z.min_r by lia. rewrite Nat2Z.id.
    change (Z.to_nat 0) with 0%nat. rewrite drop_0.
    rewrite firstn_all. symmetry. apply take_ge. lia.
Qed.

Lemma slice_last_ten (text : list code_unit) :
  slice_from text (-10) = drop (length text - 10) text.
Proof.
  unfold slice_from, slice, relative_index. simpl.
  destruct (Z.ltb_spec (Z.of_nat (length text)) 0); [lia|].
  rewrite Z.min_id.
  replace (Z.to_nat (Z.max (Z.of_nat (length text) + -10) 0))
    with (length text - 10)%nat by lia.
  apply take_ge. rewrite length_drop. lia.
Qed.

(** X23. The two context strings of [getRedactionContext] always have
    exactly 40 code units: [before] is a run of full stops followed by the
    first ten code units of the redaction's text (all of it if it is
    shorter), [after] is its last ten code units followed by a run of full
    stops. *)
Theorem getRedactionContext_shape (redaction : RedactionItem.t code_unit) :
  let text := RedactionItem.text redaction in
  let shown := (length text `min` 10)%nat in
  length (contextBefore dot redaction) = 40%nat
  ∧ length (contextAfter dot redaction) = 40%nat
  ∧ contextBefore dot redaction = replicate (40 - shown) dot ++ take 10 text
  ∧ contextAfter dot redaction
    = drop (length text - 10) text ++ replicate (40 - shown) dot.
Proof.
  intros text shown.
  assert (contextBefore dot redaction = replicate (40 - shown) dot ++ take 10 text)
    as Hbefore.
  { unfold contextBefore, contextLength, padStart. fold text.
    rewrite slice_first_ten.
    assert (length (take 10 text) = shown) as Hlen by (rewrite length_take; lia).
    rewrite slice_whole.
    - rewrite app_assoc. f_equal.
      change [dot; dot; dot] with (replicate 3 dot).
      rewrite <- replicate_add. f_equal. rewrite length_app. simpl. lia.
    - rewrite !length_app, length_replicate. cbn [length]. lia. }
  assert (contextAfter dot redaction
          = drop (length text - 10) text ++ replicate (40 - shown) dot) as Hafter.
  { unfold contextAfter, contextLength, padEnd. fold text.
    rewrite slice_last_ten.
    assert (length (drop (length text - 10) text) = shown) as Hlen
      by (rewrite length_drop; lia).
    rewrite slice_whole.
    - rewrite <- app_assoc. f_equal.
      change [dot; dot; dot] with (replicate 3 dot).
      rewrite <- replicate_add. f_equal. rewrite length_app. simpl. lia.
    - rewrite !length_app, length_replicate. cbn [length]. lia. }
  split; [|split; [|done]].
  - rewrite Hbefore, length_app, length_replicate, length_take. lia.
  - rewrite Hafter, length_app, length_replicate, length_drop. lia.
Qed.

(** X24. A page's text is requested unless a text that is not empty is cached
    for it.  So a response with a non-empty text stops further requests for
    that page, a response with an empty text does not, a failed request
    changes nothing, and requests for other pages are never affected. *)
Theorem loadPageText_caches_nonempty
    (pageText : gmap Z (list code_unit)) (pageNum : Z)
    (response : TextResponse code_unit) :
  let next := loadPageText_settled pageNum response pageText in
  (loadPageText_requests pageText pageNum = false
   ↔ ∃ text, pageText !! pageNum = Some text ∧ text ≠ [])
  ∧ loadPageText_requests next pageNum
    = match response with
      | TextOk [] => true
      | TextOk (_ :: _) => false
      | TextNotOk | TextNetworkError => loadPageText_requests pageText pageNum
      end
  ∧ (∀ other, other ≠ pageNum →
       loadPageText_requests next other = loadPageText_requests pageText other)
  ∧ (response = TextNotOk ∨ response = TextNetworkError → next = pageText).
Proof.
  unfold loadPageText_requests, cachedText, loadPageText_settled.
  split; [|split; [|split]].
  - destruct (pageText !! pageNum) as [[|c text]|]; simpl; split; try done.
    + by intros (text & [= <-] & Hne).
    + intros _. by eexists.
    + by intros (text & ? & _).
  - destruct response as [[|c text]| |]; simpl; try done.
    + by rewrite lookup_insert_eq.
    + by rewrite lookup_insert_eq.
  - intros other Hother. destruct response; simpl; try done.
    by rewrite lookup_insert_ne.
  - by intros [-> | ->].
Qed.

End ContextFacts.
